(** * Verification of the checkpoint manager and the retry supervisor

    Shallow embedding of [src/src/orchestrator/recovery.py] (module
    [Recovery]) and [src/src/engine/state.py] (module [State]).

    Python floats are modelled as rationals [Q].  The only float operations
    the code performs are [base_backoff * 2 ** attempt] and [min]; multiplying
    a binary64 value by a power of two is exact short of overflow, and an
    overflowing product ([inf]) is capped by [min] to [max_backoff] exactly as
    the rational product is.  The conversion of the Python int [2 ** attempt]
    to a float, which raises [OverflowError] from [attempt = 1024] on, is
    modelled explicitly. *)

From Stdlib Require Import QArith Qminmax Sorting.Sorted.
From stdpp Require Import base list strings gmap.

Open Scope Z_scope.

(** ** Strings: ASCII lower-casing and substring search *)
Module Str.

(** [str.lower] on ASCII text: 'A'..'Z' are mapped to 'a'..'z'. *)
Definition lower_ascii (c : Ascii.ascii) : Ascii.ascii :=
  let n := Ascii.nat_of_ascii c in
  if (65 <=? n)%nat && (n <=? 90)%nat then Ascii.ascii_of_nat (n + 32) else c.

Fixpoint lower (s : string) : string :=
  match s with
  | EmptyString => EmptyString
  | String c s' => String (lower_ascii c) (lower s')
  end.

(** [String.prefix] decides whether [p] is a prefix of [s]. *)
Fixpoint is_prefix (p s : string) : bool :=
  match p, s with
  | EmptyString, _ => true
  | String c p', String d s' => Ascii.eqb c d && is_prefix p' s'
  | String _ _, EmptyString => false
  end.

(** Python's [sub in s]. *)
Fixpoint contains (sub s : string) : bool :=
  is_prefix sub s ||
  match s with
  | EmptyString => false
  | String _ s' => contains sub s'
  end.

End Str.

(** ** [orchestrator/recovery.py] *)
Module Recovery.

Inductive FaultType := RETRIABLE | NON_RETRIABLE.

Definition RETRIABLE_SIGNATURES : list string :=
  ["nccl"; "connection reset"; "timeout"; "cuda error: out of memory";
   "runtimeerror: cuda error"]%string.

(** [classify_fault exc], with [text = str(exc)]. *)
Fixpoint classify_sigs (sigs : list string) (text : string) : FaultType :=
  match sigs with
  | [] => NON_RETRIABLE
  | sig :: rest => if Str.contains sig text then RETRIABLE else classify_sigs rest text
  end.

Definition classify_fault (exc_text : string) : FaultType :=
  classify_sigs RETRIABLE_SIGNATURES (Str.lower exc_text).

Record RetryPolicy := {
  max_retries : Z;
  base_backoff : Q;
  max_backoff : Q
}.

Definition default_policy : RetryPolicy :=
  {| max_retries := 3; base_backoff := 10; max_backoff := 300 |}.

(** Python's [min(a, b)]: [b] replaces [a] only when [b < a]. *)
Definition py_min (a b : Q) : Q := if Qlt_le_dec b a then b else a.

(** [backoff_for]: [None] is the [OverflowError] raised when the int
    [2 ** attempt] (at least [2 ^ 1024]) is converted to a float. *)
Definition backoff_for (p : RetryPolicy) (attempt : nat) : option Q :=
  if (1024 <=? attempt)%nat then None
  else Some (py_min (max_backoff p) (base_backoff p * inject_Z (2 ^ Z.of_nat attempt))).

(** Exceptions reaching the caller of [run_with_retries]. *)
Inductive exn :=
| Fault (text : string)     (* the exception raised by [fn] *)
| OverflowError
| ValueError.

Inductive outcome := Returned | Raised (e : exn) | OutOfFuel.

(** Process-wide part of the state: the [GracefulTerminator] latch, the
    number of calls of [fn] and the delays passed to [time.sleep]. *)
Record proc := { latch : bool; calls : nat; slept : list Q }.

(** [GracefulTerminator._handle]: sets the event, never clears it. *)
Definition handle (p : proc) : proc :=
  {| latch := true; calls := calls p; slept := slept p |}.

Definition should_terminate (p : proc) : bool := latch p.

Section Loop.
(** Largest delay [time.sleep] accepts on the platform (larger ones
    raise [OverflowError]). *)
Variable sleep_max : Q.
(** [fn] at its call number [i] (counted from 0): [None] returns, [Some text] raises an
    exception whose [str] is [text]. *)
Variable fn : nat -> option string.
(** [sig k]: a SIGTERM is delivered while the [k]-th sleep runs.  The
    handler returns normally, so [time.sleep] resumes (PEP 475) and the
    full delay elapses. *)
Variable sig : nat -> bool.
Variable retry_policy : RetryPolicy.

Definition time_sleep (d : Q) (p : proc) : option proc :=
  if Qlt_le_dec d 0 then None
  else if Qlt_le_dec sleep_max d then None
  else
    let p' := if sig (length (slept p)) then handle p else p in
    Some {| latch := latch p'; calls := calls p'; slept := slept p' ++ [d] |}.

Definition sleep_error (d : Q) : exn :=
  if Qlt_le_dec d 0 then ValueError else OverflowError.

Definition call (p : proc) : proc :=
  {| latch := latch p; calls := S (calls p); slept := slept p |}.

(** The [while True] loop; [fuel] bounds the iterations, and
    [Z.to_nat max_retries + 1] iterations always suffice. *)
Fixpoint retry_loop (fuel : nat) (attempt : nat) (p : proc) : proc * outcome :=
  match fuel with
  | O => (p, OutOfFuel)
  | S fuel' =>
      let p1 := call p in
      match fn attempt with
      | None => (p1, Returned)
      | Some text =>
          if (match classify_fault text with RETRIABLE => true | _ => false end)
             && (Z.of_nat attempt <? max_retries retry_policy)
          then
            match backoff_for retry_policy attempt with
            | None => (p1, Raised OverflowError)
            | Some delay =>
                match time_sleep delay p1 with
                | None => (p1, Raised (sleep_error delay))
                | Some p2 => retry_loop fuel' (S attempt) p2
                end
            end
          else (p1, Raised (Fault text))
      end
  end.

Definition run_with_retries (p : proc) : proc * outcome :=
  retry_loop (S (Z.to_nat (max_retries retry_policy))) 0 p.
End Loop.

End Recovery.

(** ** [engine/state.py] *)
Module State.

(** *** Decimal text: [f"{step:08d}"] and [int(...)] of a digit run *)
Definition digit_char (d : N) : Ascii.ascii := Ascii.ascii_of_N (48 + d).

Fixpoint digits_aux (fuel : nat) (n : N) (acc : string) : string :=
  match fuel with
  | O => acc
  | S f =>
      let acc' := String (digit_char (n mod 10)) acc in
      if (n <? 10)%N then acc' else digits_aux f (n / 10) acc'
  end.

(** Decimal digits of [n]; [log2 n + 1] bounds their number. *)
Definition digits (n : N) : string := digits_aux (S (N.to_nat (N.log2 n))) n EmptyString.

Fixpoint zeros (k : nat) : string :=
  match k with O => EmptyString | S k' => String (digit_char 0) (zeros k') end.

(** [format(z, "08d")]: sign, then zero padding to a total width of 8. *)
Definition format_08d (z : Z) : string :=
  let ds := digits (Z.abs_N z) in
  let sign := if z <? 0 then "-"%string else EmptyString in
  (sign +:+ zeros (8 - String.length sign - String.length ds) +:+ ds)%string.

Definition is_digit (c : Ascii.ascii) : bool :=
  let n := Ascii.nat_of_ascii c in (48 <=? n)%nat && (n <=? 57)%nat.

(** The greedy [\d+] run at the start of [s]. *)
Fixpoint digit_run (s : string) : string :=
  match s with
  | EmptyString => EmptyString
  | String c s' => if is_digit c then String c (digit_run s') else EmptyString
  end.

Fixpoint parse_dec (acc : Z) (s : string) : Z :=
  match s with
  | EmptyString => acc
  | String c s' => parse_dec (acc * 10 + Z.of_nat (Ascii.nat_of_ascii c - 48)) s'
  end.

(** [re.compile(r"step_(\d+)").match(name)], then [int(match.group(1))]:
    anchored at the start of [name] only. *)
Definition match_step (name : string) : option Z :=
  if Str.is_prefix "step_" name then
    let ds := digit_run (String.substring 5 (String.length name - 5) name) in
    match ds with
    | EmptyString => None
    | _ => Some (parse_dec 0 ds)
    end
  else None.

(** *** Files and documents *)
Definition path := list string.
Definition float := Q.
(** The bytes [torch.save] writes for a state dict (opaque). *)
Definition blob := string.

Definition MANIFEST := "manifest.json"%string.
Definition STATE_FILE := "state.pt"%string.
Definition META_FILE := "meta.json"%string.

(** [os.path.join] of the components *)
Definition render (p : path) : string := String.concat "/" p.

(** [f"{path}.tmp"]: the suffix goes on the last component. *)
Definition tmp_of (p : path) : path :=
  match rev p with
  | [] => [".tmp"%string]
  | n :: r => rev r ++ [(n +:+ ".tmp")%string]
  end.

Record CheckpointInfo := {
  step : Z; ci_path : path; loss : option float; timestamp : float; ok : bool
}.

(** [CheckpointInfo(step=..., path=..., ok=True)]: [loss] and [timestamp]
    take their defaults [None] and [0.0]. *)
Definition info_of (s : Z) (p : path) : CheckpointInfo :=
  {| step := s; ci_path := p; loss := None; timestamp := 0%Q; ok := true |}.

(** A manifest entry [{step, path, loss, timestamp, ok}]. *)
Record entry := {
  e_step : Z; e_path : path; e_loss : option float; e_timestamp : float; e_ok : bool
}.

(** [manifest.json]: [{"latest": ..., "checkpoints": [...]}]. *)
Record manifest := { latest : option Z; checkpoints : list entry }.

(** [meta.json]: [{step, loss, timestamp, rank}]. *)
Record meta := { m_step : Z; m_loss : option float; m_timestamp : float; m_rank : Z }.

(** File contents: the JSON documents and pickles the code writes, or any
    other bytes. *)
Inductive content :=
| CManifest (m : manifest)
| CMeta (m : meta)
| CState (b : blob)
| CRaw (s : string).

Inductive node := Dir | File (c : content).

(** Process state: the file system, the clock read by [time.time()], and
    the collaborators [get_rank()], [is_main_process()] and the number of
    [barrier()] calls made so far. *)
Record st := {
  fs : gmap path node; clock : Q; rank : Z; main : bool; barriers : nat
}.

Definition with_fs (s : st) (f : gmap path node) : st :=
  {| fs := f; clock := clock s; rank := rank s; main := main s; barriers := barriers s |}.

(** *** State and exception monad: a raised exception keeps the effects
    performed before it, as in Python. *)
Definition M (A : Type) : Type := st -> option A * st.

Definition ret {A} (a : A) : M A := fun s => (Some a, s).
Definition bind {A B} (c : M A) (k : A -> M B) : M B :=
  fun s => match c s with
           | (Some a, s') => k a s'
           | (None, s') => (None, s')
           end.
Definition raise {A} : M A := fun s => (None, s).
(** [try: c  except Exception: h] *)
Definition try_except {A} (c : M A) (h : M A) : M A :=
  fun s => match c s with
           | (Some a, s') => (Some a, s')
           | (None, s') => h s'
           end.

Notation "x <- c ;; k" := (bind c (fun x => k))
  (at level 100, c at next level, right associativity).
Notation "c ;;; k" := (bind c (fun _ => k)) (at level 100, right associativity).

Definition get_fs : M (gmap path node) := fun s => (Some (fs s), s).
Definition put_fs (f : gmap path node) : M unit := fun s => (Some tt, with_fs s f).

(** *** Collaborators *)
(** [time.time()]: the clock advances by one second per reading. *)
Definition time_time : M float :=
  fun s => (Some (clock s),
            {| fs := fs s; clock := clock s + 1; rank := rank s; main := main s;
               barriers := barriers s |}).

(** Modelled from the spec: [distributed.get_rank] (not in the sources)
    returns this process's global rank. *)
Definition get_rank : M Z := fun s => (Some (rank s), s).

(** Modelled from the spec: [distributed.is_main_process] (not in the
    sources) tells whether this process is the designated leader. *)
Definition is_main_process : M bool := fun s => (Some (main s), s).

(** Modelled from the spec: [distributed.barrier] (not in the sources)
    blocks until every process arrives; it touches no file. *)
Definition barrier : M unit :=
  fun s => (Some tt,
            {| fs := fs s; clock := clock s; rank := rank s; main := main s;
               barriers := S (barriers s) |}).

(** *** [os], [shutil], [torch] on the file system *)
Definition parent (p : path) : path := removelast p.

(** [p ++ rest = k] *)
Fixpoint strip_prefix (p k : path) : option path :=
  match p, k with
  | [], _ => Some k
  | x :: p', y :: k' => if String.eqb x y then strip_prefix p' k' else None
  | _ :: _, [] => None
  end.

Definition under (p k : path) : bool :=
  match strip_prefix p k with Some _ => true | None => false end.

(** Names of the entries of directory [p], in the map's order (the order
    of [os.listdir] is arbitrary). *)
Definition children (f : gmap path node) (p : path) : list string :=
  omap (fun kv : path * node =>
          match strip_prefix p kv.1 with Some [n] => Some n | _ => None end)
       (map_to_list f).

Definition is_dir (f : gmap path node) (p : path) : bool :=
  match f !! p with Some Dir => true | _ => false end.

Definition os_path_exists (p : path) : M bool :=
  f <- get_fs ;; ret (bool_decide (is_Some (f !! p))).

Definition os_path_isfile (p : path) : M bool :=
  f <- get_fs ;; ret (match f !! p with Some (File _) => true | _ => false end).

Definition os_listdir (p : path) : M (list string) :=
  f <- get_fs ;; if is_dir f p then ret (children f p) else raise.

Fixpoint makedirs_go (pre rest : path) (f : gmap path node) : option (gmap path node) :=
  match rest with
  | [] => Some f
  | n :: rest' =>
      let q := pre ++ [n] in
      match f !! q with
      | Some (File _) => None
      | Some Dir => makedirs_go q rest' f
      | None => makedirs_go q rest' (<[q := Dir]> f)
      end
  end.

(** [os.makedirs(p, exist_ok=True)] *)
Definition os_makedirs (p : path) : M unit :=
  f <- get_fs ;; match makedirs_go [] p f with Some f' => put_fs f' | None => raise end.

(** [open(p, "w")] and a complete write of [c] *)
Definition write_file (p : path) (c : content) : M unit :=
  f <- get_fs ;;
  if is_dir f (parent p) && negb (is_dir f p) && negb (bool_decide (p = []))
  then put_fs (<[p := File c]> f) else raise.

(** [shutil.rmtree(p, ignore_errors=True)]: removes a directory tree; on a
    file every error is ignored and nothing is removed. *)
Definition rmtree (p : path) : M unit :=
  f <- get_fs ;;
  if is_dir f p then put_fs (filter (fun kv : path * node => under p kv.1 = false) f)
  else ret tt.

(** The tree under [src] moved under [dst]. *)
Definition move_tree (src dst : path) (f : gmap path node) : gmap path node :=
  list_to_map
    (omap (fun kv : path * node =>
             match strip_prefix src kv.1 with
             | Some r => Some (dst ++ r, kv.2)
             | None => None
             end) (map_to_list f))
  ∪ filter (fun kv : path * node => (negb (under src kv.1) && negb (under dst kv.1)) = true) f.

(** [os.replace(src, dst)] (POSIX [rename]) *)
Definition os_replace (src dst : path) : M unit :=
  f <- get_fs ;;
  if bool_decide (src = dst) then (if bool_decide (is_Some (f !! src)) then ret tt else raise)
  else if negb (is_dir f (parent dst)) then raise
  else
    match f !! src, f !! dst with
    | None, _ => raise
    | Some (File c), Some Dir => raise
    | Some (File c), _ => put_fs (<[dst := File c]> (delete src f))
    | Some Dir, Some (File _) => raise
    | Some Dir, Some Dir =>
        if under src dst then raise
        else if bool_decide (children f dst = []) then put_fs (move_tree src dst f)
        else raise
    | Some Dir, None => if under src dst then raise else put_fs (move_tree src dst f)
    end.

(** [torch.save(state, p)] *)
Definition torch_save (state : blob) (p : path) : M unit := write_file p (CState state).

(** [torch.load(p)]: fails unless [p] is a file holding a pickled state. *)
Definition torch_load (p : path) : M blob :=
  f <- get_fs ;; match f !! p with Some (File (CState b)) => ret b | _ => raise end.

(** [_atomic_write(path, data)] *)
Definition atomic_write (p : path) (c : content) : M unit :=
  write_file (tmp_of p) c ;;; os_replace (tmp_of p) p.

(** *** [NodeStateHandler] *)
Record NodeStateHandler := { root_dir : path }.

Definition manifest_path (h : NodeStateHandler) : path := root_dir h ++ [MANIFEST].

Definition checkpoint_dir (h : NodeStateHandler) (s : Z) : path :=
  root_dir h ++ [("step_" +:+ format_08d s)%string].

Definition empty_manifest : manifest := {| latest := None; checkpoints := [] |}.

(** [_load_manifest]: a file that is not a manifest fails to decode. *)
Definition load_manifest (h : NodeStateHandler) : M manifest :=
  ex <- os_path_exists (manifest_path h) ;;
  if negb ex then ret empty_manifest
  else f <- get_fs ;;
       match f !! manifest_path h with
       | Some (File (CManifest m)) => ret m
       | _ => raise
       end.

Definition write_manifest (h : NodeStateHandler) (m : manifest) : M unit :=
  atomic_write (manifest_path h) (CManifest m).

Definition entry_of (info : CheckpointInfo) : entry :=
  {| e_step := step info; e_path := ci_path info; e_loss := loss info;
     e_timestamp := timestamp info; e_ok := ok info |}.

(** [entries[-20:]] *)
Definition last20 {A} (l : list A) : list A := drop (length l - 20) l.

(** The manifest that [_record_checkpoint] writes. *)
Definition record_manifest (m : manifest) (info : CheckpointInfo) : manifest :=
  {| checkpoints := last20 (checkpoints m ++ [entry_of info]);
     latest := if ok info then Some (step info) else latest m |}.

Definition record_checkpoint (h : NodeStateHandler) (info : CheckpointInfo) : M unit :=
  m <- load_manifest h ;; write_manifest h (record_manifest m info).

(** The leader's writes into the temporary directory (lines 86-102 of
    [save]), up to the rename. *)
Definition save_write_tmp (h : NodeStateHandler) (s : Z) (state : blob)
    (l : option float) : M path :=
  let ckpt_dir := checkpoint_dir h s in
  let tmp_dir := tmp_of ckpt_dir in
  ex <- os_path_exists tmp_dir ;;
  (if ex then rmtree tmp_dir else ret tt) ;;;
  os_makedirs tmp_dir ;;;
  torch_save state (tmp_dir ++ [STATE_FILE]) ;;;
  t <- time_time ;;
  r <- get_rank ;;
  atomic_write (tmp_dir ++ [META_FILE])
    (CMeta {| m_step := s; m_loss := l; m_timestamp := t; m_rank := r |}) ;;;
  ret tmp_dir.

(** [save(step, state, loss, is_main)]; the result is the returned string. *)
Definition save (h : NodeStateHandler) (s : Z) (state : blob) (l : option float)
    (is_main : option bool) : M string :=
  should_write <- (match is_main with Some b => ret b | None => is_main_process end) ;;
  if negb should_write then barrier ;;; ret EmptyString
  else
    tmp_dir <- save_write_tmp h s state l ;;
    os_replace tmp_dir (checkpoint_dir h s) ;;;
    t <- time_time ;;
    record_checkpoint h {| step := s; ci_path := checkpoint_dir h s; loss := l;
                           timestamp := t; ok := true |} ;;;
    barrier ;;;
    ret (render (checkpoint_dir h s)).

(** [_is_valid_checkpoint(path)], with Python's short-circuit [and]/[or]. *)
Definition is_valid_checkpoint (p : path) : M bool :=
  has_state <- os_path_isfile (p ++ [STATE_FILE]) ;;
  has_meta <- os_path_isfile (p ++ [META_FILE]) ;;
  ex <- os_path_exists p ;;
  if ex && has_meta then
    (if has_state then ret true
     else names <- os_listdir p ;; ret (0 <? length names)%nat)
  else ret false.

(** [candidates.sort(key=lambda x: x[0], reverse=True)]: stable, so
    entries with equal steps keep their listing order. *)
Fixpoint insert_desc (x : Z * path) (l : list (Z * path)) : list (Z * path) :=
  match l with
  | [] => [x]
  | y :: l' => if y.1 <? x.1 then x :: y :: l' else y :: insert_desc x l'
  end.

Definition sort_desc (l : list (Z * path)) : list (Z * path) :=
  fold_left (fun acc x => insert_desc x acc) l [].

Definition scan_checkpoint_dirs (h : NodeStateHandler) : M (list (Z * path)) :=
  names <- os_listdir (root_dir h) ;;
  ret (sort_desc (omap (fun name => match match_step name with
                                    | Some s => Some (s, root_dir h ++ [name])
                                    | None => None
                                    end) names)).

Fixpoint first_valid (cands : list (Z * path)) : M (option CheckpointInfo) :=
  match cands with
  | [] => ret None
  | (s, p) :: rest =>
      v <- is_valid_checkpoint p ;;
      if v then ret (Some (info_of s p)) else first_valid rest
  end.

Definition latest_checkpoint (h : NodeStateHandler) : M (option CheckpointInfo) :=
  m <- load_manifest h ;;
  let fallback := cands <- scan_checkpoint_dirs h ;; first_valid cands in
  match latest m with
  | Some l =>
      let p := checkpoint_dir h l in
      v <- is_valid_checkpoint p ;;
      if v then ret (Some (info_of l p)) else fallback
  | None => fallback
  end.

Definition load (p : path) : M blob := torch_load (p ++ [STATE_FILE]).

(** [record_external(step, path, loss)] *)
Definition record_external (h : NodeStateHandler) (s : Z) (p : path)
    (l : option float) : M unit :=
  os_makedirs p ;;;
  t <- time_time ;;
  r <- get_rank ;;
  atomic_write (p ++ [META_FILE])
    (CMeta {| m_step := s; m_loss := l; m_timestamp := t; m_rank := r |}) ;;;
  t' <- time_time ;;
  record_checkpoint h {| step := s; ci_path := p; loss := l; timestamp := t'; ok := true |}.

(** The manifest rewritten by the [except] branch of
    [load_latest_checkpoint]: every entry of step [s] gets [ok = False]. *)
Definition mark_bad (m : manifest) (s : Z) : manifest :=
  {| latest := latest m;
     checkpoints := map (fun c => if bool_decide (e_step c = s)
                                  then {| e_step := e_step c; e_path := e_path c;
                                          e_loss := e_loss c; e_timestamp := e_timestamp c;
                                          e_ok := false |}
                                  else c) (checkpoints m) |}.

Definition load_latest_checkpoint (h : NodeStateHandler)
    : M (option (CheckpointInfo * blob)) :=
  lt <- latest_checkpoint h ;;
  match lt with
  | None => ret None
  | Some info =>
      try_except
        (b <- load (ci_path info) ;; ret (Some (info, b)))
        (m <- load_manifest h ;; write_manifest h (mark_bad m (step info)) ;;; ret None)
  end.

(** [NodeStateHandler(root_dir)]: creates the root directory. *)
Definition init (root : path) : M NodeStateHandler :=
  os_makedirs root ;;; ret {| root_dir := root |}.

(** [list_checkpoints()]: one [CheckpointInfo] per manifest entry, in the
    manifest's order.  The entries the code writes carry every key, so the
    defaults of [entry.get] are not reached. *)
Definition info_of_entry (e : entry) : CheckpointInfo :=
  {| step := e_step e; ci_path := e_path e; loss := e_loss e;
     timestamp := e_timestamp e; ok := e_ok e |}.

Definition list_checkpoints (h : NodeStateHandler) : M (list CheckpointInfo) :=
  m <- load_manifest h ;; ret (map info_of_entry (checkpoints m)).

(** The loop of [validate_all]: [(path, ok, reason)] for each candidate, in
    the scan's order. *)
Fixpoint validate_go (cands : list (Z * path)) : M (list (path * bool * option string)) :=
  match cands with
  | [] => ret []
  | (_, p) :: rest =>
      v <- is_valid_checkpoint p ;;
      rs <- validate_go rest ;;
      ret ((p, v, if v then None else Some "missing files"%string) :: rs)
  end.

(** [validate_all()] *)
Definition validate_all (h : NodeStateHandler) : M (list (path * bool * option string)) :=
  cands <- scan_checkpoint_dirs h ;; validate_go cands.

End State.

(** ** The formula of the spec for [backoffFor] *)
Module SpecBackoff.
(** [backoffFor(attempt) = min(maxBackoffSeconds, baseBackoffSeconds * 2^attempt)],
    read over the rationals as the spec states it. *)
Definition backoffFor (p : Recovery.RetryPolicy) (attempt : nat) : Q :=
  Qmin (Recovery.max_backoff p) (Recovery.base_backoff p * inject_Z (2 ^ Z.of_nat attempt)).
End SpecBackoff.

(** ** [orchestrator/nodes.py] *)
Module Nodes.

Record LaunchConfig := {
  num_nodes : Z;
  gpus_per_node : Z;
  node_rank : Z;
  master_addr : string;
  master_port : Z;
  max_retries : Z;
  base_backoff : Q;
  max_backoff : Q;
  backend : option string
}.

Definition default_config : LaunchConfig :=
  {| num_nodes := 1; gpus_per_node := 1; node_rank := 0; master_addr := "127.0.0.1";
     master_port := 29500; max_retries := 3; base_backoff := 10; max_backoff := 300;
     backend := None |}.

(** The [world_size] property. *)
Definition world_size (c : LaunchConfig) : Z := num_nodes c * gpus_per_node c.

(** [str(z)] of a Python int. *)
Definition str_int (z : Z) : string :=
  String.append (if (z <? 0)%Z then "-"%string else EmptyString) (State.digits (Z.abs_N z)).

(** The environment the entrypoint of [_wrap_worker(local_rank, ...)] runs
    under: [os.environ] after the assignments of lines 55-63 ([if
    config.backend:] is false for [None] and for the empty string). *)
Definition wrap_worker_env (local_rank : Z) (c : LaunchConfig) (env : gmap string string)
    : gmap string string :=
  let global_rank := node_rank c * gpus_per_node c + local_rank in
  let env := <["RANK"%string := str_int global_rank]> env in
  let env := <["WORLD_SIZE"%string := str_int (world_size c)]> env in
  let env := <["LOCAL_RANK"%string := str_int local_rank]> env in
  let env := <["LOCAL_WORLD_SIZE"%string := str_int (gpus_per_node c)]> env in
  let env := <["MASTER_ADDR"%string := master_addr c]> env in
  let env := <["MASTER_PORT"%string := str_int (master_port c)]> env in
  match backend c with
  | Some b => if String.eqb b EmptyString then env else <["TORCH_BACKEND"%string := b]> env
  | None => env
  end.

(** [_run] inside [launch]: the local ranks of the workers it starts, in
    order; [mp.spawn(..., nprocs=gpus_per_node)] runs [range(nprocs)]. *)
Definition launch_local_ranks (c : LaunchConfig) : list Z :=
  if 1 <? world_size c then map Z.of_nat (seq 0 (Z.to_nat (gpus_per_node c))) else [0].

(** The environments of the workers [launch] starts on this node. *)
Definition launch_envs (c : LaunchConfig) (env : gmap string string) : list (gmap string string) :=
  map (fun l => wrap_worker_env l c env) (launch_local_ranks c).

(** The same configuration on node [n]. *)
Definition on_node (c : LaunchConfig) (n : Z) : LaunchConfig :=
  {| num_nodes := num_nodes c; gpus_per_node := gpus_per_node c; node_rank := n;
     master_addr := master_addr c; master_port := master_port c;
     max_retries := max_retries c; base_backoff := base_backoff c;
     max_backoff := max_backoff c; backend := backend c |}.
End Nodes.

(** ** Properties and drivers the statements are phrased with *)
Module Props.
Import State.

(** [c] leaves every path satisfying [P] as it was, when it succeeds. *)
Definition fs_frame {A} (P : path -> Prop) (c : M A) : Prop :=
  forall s a s', c s = (Some a, s') -> forall q, P q -> fs s' !! q = fs s !! q.

(** Steps that never change the file system. *)
Definition fs_pure {A} (c : M A) : Prop := forall s, fs (snd (c s)) = fs s.

(** What [_load_manifest] returns on the file system [f] ([None]: it raises). *)
Definition read_manifest (h : NodeStateHandler) (f : gmap path node) : option manifest :=
  match f !! manifest_path h with
  | None => Some empty_manifest
  | Some (File (CManifest m)) => Some m
  | _ => None
  end.

(** [q] is neither [p] nor under [p]. *)
Definition outside (p q : path) : Prop := forall r, q <> p ++ r.

(** [q] is neither [p], nor under [p], nor a directory above [p]. *)
Definition apart_from (p q : path) : Prop := outside p q /\ (forall r, p <> q ++ r).

(** The paths a leader's [save] of step [x] leaves alone. *)
Definition save_apart (h : NodeStateHandler) (x : Z) (q : path) : Prop :=
  apart_from (tmp_of (checkpoint_dir h x)) q /\ outside (checkpoint_dir h x) q /\
  outside (manifest_path h) q /\ outside (tmp_of (manifest_path h)) q.

(** The arguments [(step, state, loss)] of one [save] call. *)
Definition save_call : Type := (Z * blob * option float)%type.

(** The leader ([is_main=True]) calls [save] on each element in turn. *)
Fixpoint save_seq (h : NodeStateHandler) (xs : list save_call) : M unit :=
  match xs with
  | [] => ret tt
  | (x, b, l) :: xs' => save h x b l (Some true) ;;; save_seq h xs'
  end.

(** A manifest record seen as its step and its path. *)
Definition entry_key (e : entry) : Z * path := (e_step e, e_path e).
Definition record_key (h : NodeStateHandler) (x : Z) : Z * path := (x, checkpoint_dir h x).

(** Two process states that differ at most in the terminator latch. *)
Definition same_but_latch (p q : Recovery.proc) : Prop :=
  Recovery.calls p = Recovery.calls q /\ Recovery.slept p = Recovery.slept q.

(** The spec's manifest invariant: [latest], when set, names a step with a
    record whose [ok] flag is true. *)
Definition manifest_inv (m : manifest) : Prop :=
  forall l, latest m = Some l -> exists e, In e (checkpoints m) /\ e_step e = l /\ e_ok e = true.
End Props.

(** ** Concrete runs *)
Module Scenarios.
Import State.

(** A handler over [ckpt/]; only that directory exists. *)
Definition h0 : NodeStateHandler := {| root_dir := ["ckpt"%string] |}.

Definition s_root : st :=
  {| fs := {[ ["ckpt"%string] := Dir ]}; clock := 100%Q; rank := 0; main := true;
     barriers := 0 |}.

(** The leader's [save(7, ...)] dies after the temporary directory is
    written, before [os.replace]. *)
Definition s_crash : st := snd (save_write_tmp h0 7 "weights" None s_root).

(** A completed [save(7, ...)] by the leader. *)
Definition s_saved7 : st := snd (save h0 7 "weights" None (Some true) s_root).

(** [record_external(1, checkpoint_dir(1))] of a directory with no
    [state.pt], then [load_latest_checkpoint()]. *)
Definition c1_run : option (option (CheckpointInfo * blob)) * st :=
  (record_external h0 1 (checkpoint_dir h0 1) None ;;; load_latest_checkpoint h0) s_root.

(** A step directory holding nothing but [meta.json]. *)
Definition s_meta_only : st :=
  {| fs := <[ ["ckpt"; "step_00000003"; "meta.json"]%string :=
                File (CMeta {| m_step := 3; m_loss := None; m_timestamp := 0%Q; m_rank := 0 |}) ]>
           (<[ ["ckpt"; "step_00000003"]%string := Dir ]> {[ ["ckpt"%string] := Dir ]});
     clock := 100%Q; rank := 0; main := true; barriers := 0 |}.

(** Twenty-five saves of steps 1..25. *)
Definition xs25 : list Props.save_call :=
  map (fun i : nat => (Z.of_nat i, "weights"%string, None)) (seq 1 25).

(** The leader's state after those saves. *)
Definition s_saved25 : st := snd (Props.save_seq h0 xs25 s_root).

(** [time.sleep]'s limit on a 64-bit Linux build, in seconds. *)
Definition sleep_limit : Q := 9223372036%Q.

Definition always_timeout : nat -> option string := fun _ => Some "timeout"%string.

Definition p0 : Recovery.proc := {| Recovery.latch := false; Recovery.calls := 0; Recovery.slept := [] |}.
Definition p_latched : Recovery.proc :=
  {| Recovery.latch := true; Recovery.calls := 0; Recovery.slept := [] |}.

Definition policy_1025 : Recovery.RetryPolicy :=
  {| Recovery.max_retries := 1025; Recovery.base_backoff := 10; Recovery.max_backoff := 300 |}.
(** A root without a manifest: [step_00000003] holds [meta.json],
    [step_00000005] holds [meta.json] and [state.pt], [step_00000009] holds
    only [state.pt], and there is a file [notes.txt]. *)
Definition s_scan : st :=
  {| fs := list_to_map
             [(["ckpt"]%string, Dir);
              (["ckpt"; "notes.txt"]%string, File (CRaw "n"));
              (["ckpt"; "step_00000003"]%string, Dir);
              (["ckpt"; "step_00000003"; "meta.json"]%string,
                 File (CMeta {| m_step := 3; m_loss := None; m_timestamp := 0%Q; m_rank := 0 |}));
              (["ckpt"; "step_00000005"]%string, Dir);
              (["ckpt"; "step_00000005"; "meta.json"]%string,
                 File (CMeta {| m_step := 5; m_loss := None; m_timestamp := 0%Q; m_rank := 0 |}));
              (["ckpt"; "step_00000005"; "state.pt"]%string, File (CState "w5"));
              (["ckpt"; "step_00000009"]%string, Dir);
              (["ckpt"; "step_00000009"; "state.pt"]%string, File (CState "w9"))];
     clock := 100%Q; rank := 0; main := true; barriers := 0 |}.

(** [record_external(7, checkpoint_dir(7))] of a directory with no
    [state.pt]: the manifest's latest step then has no loadable state. *)
Definition s_bad_latest : st :=
  snd (record_external h0 7 (checkpoint_dir h0 7) None s_root).

(** Two nodes of four GPUs each. *)
Definition cfg_2x4 : Nodes.LaunchConfig :=
  {| Nodes.num_nodes := 2; Nodes.gpus_per_node := 4; Nodes.node_rank := 0;
     Nodes.master_addr := "10.0.0.1"; Nodes.master_port := 29500; Nodes.max_retries := 3;
     Nodes.base_backoff := 10; Nodes.max_backoff := 300; Nodes.backend := Some "nccl"%string |}.
End Scenarios.

(** ** Further notions the properties of the remaining code use *)
Module ExtraProps.
Import State Props.

(** No entry of [f] lies strictly below a file, as on disk. *)
Definition files_are_leaves (f : gmap path node) : bool :=
  forallb (fun kv : path * node =>
             match kv.2 with
             | File _ => forallb (fun kv' : path * node =>
                                    negb (under kv.1 kv'.1) || bool_decide (kv'.1 = kv.1))
                                 (map_to_list f)
             | Dir => true
             end) (map_to_list f).

(** [p] is a directory holding a file [meta.json]. *)
Definition has_meta_dir (f : gmap path node) (p : path) : bool :=
  is_dir f p && match f !! (p ++ [META_FILE] : path) with Some (File _) => true | _ => false end.

(** Steps that leave the whole process state as it was. *)
Definition st_pure {A} (c : M A) : Prop := forall s, snd (c s) = s.
(** The candidates of the scan, before sorting. *)
Definition scan_names (h : NodeStateHandler) (names : list string) : list (Z * path) :=
  omap (fun name => match match_step name with
                    | Some x => Some (x, root_dir h ++ [name])
                    | None => None
                    end) names.


(** The manifest's latest step names a directory with [meta.json] and no
    loadable [state.pt], and the manifest can be rewritten. *)
Definition bad_latest (h : NodeStateHandler) (s : st) (m : manifest) (l : Z) : Prop :=
  read_manifest h (fs s) = Some m /\ latest m = Some l /\
  fs s !! checkpoint_dir h l = Some Dir /\
  (exists c, fs s !! (checkpoint_dir h l ++ [META_FILE] : path) = Some (File c)) /\
  (forall b, fs s !! (checkpoint_dir h l ++ [STATE_FILE] : path) <> Some (File (CState b))) /\
  fs s !! root_dir h = Some Dir /\
  fs s !! tmp_of (manifest_path h) <> Some Dir.

(** [k] consecutive calls of [load_latest_checkpoint()], with their results. *)
Fixpoint load_latest_times (h : NodeStateHandler) (k : nat)
    : M (list (option (CheckpointInfo * blob))) :=
  match k with
  | O => ret []
  | S k' => r <- load_latest_checkpoint h ;; rs <- load_latest_times h k' ;; ret (r :: rs)
  end.

End ExtraProps.

(** ** Lemmas on strings *)
Module StrFacts.
Import Str.

Lemma is_prefix_spec (p s : string) :
  is_prefix p s = true <-> exists suf, s = (p +:+ suf)%string.
Proof.
  revert s; induction p as [|c p IH]; intros s; simpl.
  - split; [intros _; exists s; reflexivity | done].
  - destruct s as [|d s]; simpl.
    + split; [done | intros [suf Hs]; discriminate].
    + rewrite Bool.andb_true_iff, IH. split.
      * intros [Hc [suf ->]]. apply Ascii.eqb_eq in Hc as ->. by exists suf.
      * intros [suf Hs]. injection Hs as -> ->.
        split; [apply Ascii.eqb_refl | by exists suf].
Qed.

Lemma contains_spec (sub s : string) :
  contains sub s = true <-> exists pre suf, s = (pre +:+ sub +:+ suf)%string.
Proof.
  induction s as [|c s IH]; simpl; rewrite Bool.orb_true_iff, is_prefix_spec.
  - split.
    + intros [[suf Hs] | H]; [|discriminate]. exists EmptyString, suf. exact Hs.
    + intros [pre [suf Hs]]. left. destruct pre; [by exists suf | discriminate].
  - rewrite IH. split.
    + intros [[suf Hs] | [pre [suf Hs]]].
      * exists EmptyString, suf. exact Hs.
      * exists (String c pre), suf. simpl. by rewrite Hs.
    + intros [[|c' pre] [suf Hs]].
      * left. by exists suf.
      * right. injection Hs as -> ->. by exists pre, suf.
Qed.
End StrFacts.

(** ** Lemmas on the retry loop *)
Module RecoveryFacts.
Import Recovery Props.

Lemma py_min_Qmin (a b : Q) : py_min a b = Qmin a b.
Proof.
  unfold py_min, Qmin, GenericMinMax.gmin.
  destruct (Qlt_le_dec b a) as [H|H].
  - assert ((a ?= b)%Q = Gt) as E by (apply Qgt_alt; exact H). by rewrite E.
  - destruct (a ?= b)%Q eqn:E; try reflexivity.
    apply Qgt_alt in E. exfalso. apply (Qlt_not_le b a); assumption.
Qed.

Lemma pow2_pos (a : nat) : 0 < 2 ^ Z.of_nat a.
Proof. apply Z.pow_pos_nonneg; lia. Qed.

Lemma backoff_in_range (p : RetryPolicy) (a : nat) :
  (0 < base_backoff p)%Q -> (base_backoff p <= max_backoff p)%Q -> (a < 1024)%nat ->
  exists d, backoff_for p a = Some d /\ (0 < d)%Q /\ (d <= max_backoff p)%Q.
Proof.
  intros Hb Hm Ha. unfold backoff_for.
  replace (1024 <=? a)%nat with false by (symmetry; apply Nat.leb_gt; lia).
  eexists; split; [reflexivity|]. unfold py_min.
  destruct (Qlt_le_dec _ _) as [H|H].
  - split; [|apply Qlt_le_weak; exact H].
    apply Qmult_lt_0_compat; [exact Hb|].
    change 0%Q with (inject_Z 0). rewrite <- Zlt_Qlt. apply pow2_pos.
  - split; [apply Qlt_le_trans with (base_backoff p); assumption | apply Qle_refl].
Qed.

Lemma retry_loop_signals (sleep_max : Q) fn sig pol (fuel attempt : nat) (p q : proc) :
  same_but_latch p q ->
  snd (retry_loop sleep_max fn sig pol fuel attempt p)
    = snd (retry_loop sleep_max fn (fun _ => false) pol fuel attempt q) /\
  same_but_latch (fst (retry_loop sleep_max fn sig pol fuel attempt p))
                 (fst (retry_loop sleep_max fn (fun _ => false) pol fuel attempt q)).
Proof.
  revert attempt p q; induction fuel as [|fuel IH]; intros attempt p q [Hc Hs]; simpl.
  - split; [reflexivity | split; assumption].
  - destruct (fn attempt) as [text|]; simpl;
      [|split; [reflexivity|unfold same_but_latch; simpl; split; congruence]].
    destruct (_ && _); simpl;
      [|split; [reflexivity|unfold same_but_latch; simpl; split; congruence]].
    destruct (backoff_for pol attempt) as [d|]; simpl;
      [|split; [reflexivity|unfold same_but_latch; simpl; split; congruence]].
    unfold time_sleep; simpl.
    destruct (Qlt_le_dec d 0); simpl;
      [split; [reflexivity|unfold same_but_latch; simpl; split; congruence]|].
    destruct (Qlt_le_dec sleep_max d); simpl;
      [split; [reflexivity|unfold same_but_latch; simpl; split; congruence]|].
    apply IH. unfold same_but_latch; simpl.
    destruct (sig _); simpl; split; congruence.
Qed.

Lemma retry_loop_latch (sleep_max : Q) fn sig pol (fuel attempt : nat) (p : proc) :
  latch p = true -> latch (fst (retry_loop sleep_max fn sig pol fuel attempt p)) = true.
Proof.
  revert attempt p; induction fuel as [|fuel IH]; intros attempt p Hl; simpl; [exact Hl|].
  destruct (fn attempt) as [text|]; simpl; [|exact Hl].
  destruct (_ && _); simpl; [|exact Hl].
  destruct (backoff_for pol attempt) as [d|]; simpl; [|exact Hl].
  unfold time_sleep; simpl.
  destruct (Qlt_le_dec d 0); simpl; [exact Hl|].
  destruct (Qlt_le_dec sleep_max d); simpl; [exact Hl|].
  apply IH. destruct (sig _); simpl; [reflexivity | exact Hl].
Qed.

(** A work function that always raises the same retriable fault. *)
Lemma retry_loop_always_retriable (sleep_max : Q) (text : string) sig pol
      (k fuel attempt : nat) (p : proc) :
  classify_fault text = RETRIABLE ->
  (0 < base_backoff pol)%Q -> (base_backoff pol <= max_backoff pol)%Q ->
  (max_backoff pol <= sleep_max)%Q ->
  max_retries pol = Z.of_nat (attempt + k) -> (attempt + k <= 1024)%nat ->
  (k < fuel)%nat ->
  snd (retry_loop sleep_max (fun _ => Some text) sig pol fuel attempt p) = Raised (Fault text) /\
  calls (fst (retry_loop sleep_max (fun _ => Some text) sig pol fuel attempt p)) = (calls p + k + 1)%nat /\
  length (slept (fst (retry_loop sleep_max (fun _ => Some text) sig pol fuel attempt p)))
    = (length (slept p) + k)%nat.
Proof.
  intros Hcl Hb Hm Hs.
  revert attempt fuel p; induction k as [|k IH]; intros attempt fuel p Hr Ha Hf;
    (destruct fuel as [|fuel]; [lia|]); simpl; rewrite Hcl; simpl.
  - replace (Z.of_nat attempt <? max_retries pol) with false
      by (symmetry; apply Z.ltb_ge; rewrite Hr; lia).
    simpl. repeat split; lia.
  - replace (Z.of_nat attempt <? max_retries pol) with true
      by (symmetry; apply Z.ltb_lt; rewrite Hr; lia).
    destruct (backoff_in_range pol attempt Hb Hm ltac:(lia)) as [d [Hd [Hd0 Hdm]]].
    rewrite Hd. unfold time_sleep.
    destruct (Qlt_le_dec d 0) as [Hneg|_];
      [exfalso; apply (Qlt_not_le d 0); [exact Hneg | apply Qlt_le_weak; exact Hd0]|].
    destruct (Qlt_le_dec sleep_max d) as [Hbig|_];
      [exfalso; apply (Qlt_not_le sleep_max d); [exact Hbig | apply Qle_trans with (max_backoff pol); assumption]|].
    match goal with
    | |- context [retry_loop _ _ _ _ fuel (S attempt) ?q] =>
        destruct (IH (S attempt) fuel q ltac:(rewrite Hr; f_equal; lia) ltac:(lia) ltac:(lia))
          as [H1 [H2 H3]]
    end.
    rewrite H1, H2, H3. simpl. rewrite length_app. destruct (sig _); simpl; repeat split; lia.
Qed.
End RecoveryFacts.

(** ** Decimal formatting of step numbers *)
Module FormatFacts.
Import State.

Lemma string_app_cons (x : Ascii.ascii) (a b : string) :
  (String x a +:+ b)%string = String x (a +:+ b).
Proof. reflexivity. Qed.

Lemma string_app_assoc (a b c : string) : ((a +:+ b) +:+ c = a +:+ (b +:+ c))%string.
Proof.
  induction a as [|x a IH]; [reflexivity|].
  rewrite !string_app_cons, IH. reflexivity.
Qed.

Lemma parse_dec_app (acc : Z) (a b : string) :
  parse_dec acc (a +:+ b) = parse_dec (parse_dec acc a) b.
Proof.
  revert acc; induction a as [|x a IH]; intros acc; [reflexivity|].
  rewrite string_app_cons. simpl. apply IH.
Qed.

Lemma digit_char_val (d : N) : (d < 10)%N ->
  Z.of_nat (Ascii.nat_of_ascii (digit_char d) - 48) = Z.of_N d /\ is_digit (digit_char d) = true.
Proof.
  intros Hd.
  assert (d = 0 \/ d = 1 \/ d = 2 \/ d = 3 \/ d = 4 \/ d = 5 \/ d = 6 \/ d = 7 \/ d = 8 \/ d = 9)%N
    as Hcases by lia.
  repeat destruct Hcases as [-> | Hcases]; [..| subst d]; split; reflexivity.
Qed.

Lemma digits_aux_acc (fuel : nat) (n : N) (acc : string) :
  digits_aux fuel n acc = (digits_aux fuel n EmptyString +:+ acc)%string.
Proof.
  revert n acc; induction fuel as [|f IH]; intros n acc; simpl; [reflexivity|].
  destruct (n <? 10)%N; [reflexivity|].
  rewrite IH, (IH (n / 10)%N (String _ EmptyString)), string_app_assoc. reflexivity.
Qed.

Fixpoint all_digits (s : string) : bool :=
  match s with
  | EmptyString => true
  | String c s' => is_digit c && all_digits s'
  end.

Lemma all_digits_app (a b : string) :
  all_digits (a +:+ b) = all_digits a && all_digits b.
Proof.
  induction a as [|x a IH]; [reflexivity|].
  rewrite string_app_cons. simpl. by rewrite IH, andb_assoc.
Qed.

Lemma digits_aux_spec (fuel : nat) (n : N) :
  (n < 10 ^ N.of_nat fuel)%N ->
  parse_dec 0 (digits_aux fuel n EmptyString) = Z.of_N n /\
  all_digits (digits_aux fuel n EmptyString) = true.
Proof.
  revert n; induction fuel as [|f IH]; intros n Hn; simpl.
  - simpl in Hn. assert (n = 0%N) as -> by lia. split; reflexivity.
  - destruct (digit_char_val (n mod 10)) as [Hv Hd]; [apply N.mod_lt; lia|].
    destruct (n <? 10)%N eqn:E.
    + apply N.ltb_lt in E. simpl. rewrite Hv, Hd.
      split; [rewrite N.mod_small by exact E; lia | reflexivity].
    + apply N.ltb_ge in E.
      destruct (IH (n / 10)%N) as [IHv IHd].
      { rewrite Nnat.Nat2N.inj_succ, N.pow_succ_r' in Hn.
        apply N.Div0.div_lt_upper_bound. lia. }
      rewrite digits_aux_acc, parse_dec_app, IHv, all_digits_app, IHd. simpl.
      rewrite Hv, Hd. split; [|reflexivity].
      pose proof (N.div_mod n 10 ltac:(lia)). lia.
Qed.

Lemma digits_spec (n : N) :
  parse_dec 0 (digits n) = Z.of_N n /\ all_digits (digits n) = true.
Proof.
  apply digits_aux_spec.
  destruct (N.eq_dec n 0%N) as [->|Hn]; [simpl; lia|].
  destruct (N.log2_spec n ltac:(lia)) as [_ Hlt].
  rewrite Nnat.Nat2N.inj_succ, Nnat.N2Nat.id.
  eapply N.lt_le_trans; [exact Hlt|].
  apply N.pow_le_mono_l. lia.
Qed.

Lemma zeros_spec (k : nat) :
  parse_dec 0 (zeros k) = 0 /\ all_digits (zeros k) = true.
Proof. induction k as [|k IH]; simpl; [split; reflexivity | exact IH]. Qed.

Lemma format_08d_spec (z : Z) : 0 <= z ->
  parse_dec 0 (format_08d z) = z /\ all_digits (format_08d z) = true.
Proof.
  intros Hz. unfold format_08d.
  replace (z <? 0) with false by (symmetry; apply Z.ltb_ge; exact Hz).
  generalize (8 - String.length EmptyString - String.length (digits (Z.abs_N z)))%nat as k.
  intros k. change (EmptyString +:+ ?x)%string with x.
  destruct (zeros_spec k) as [Hzv Hzd].
  destruct (digits_spec (Z.abs_N z)) as [Hdv Hdd].
  rewrite parse_dec_app, Hzv, Hdv, all_digits_app, Hzd, Hdd.
  split; [lia | reflexivity].
Qed.

Lemma format_08d_inj (x y : Z) : 0 <= x -> 0 <= y -> format_08d x = format_08d y -> x = y.
Proof.
  intros Hx Hy E.
  destruct (format_08d_spec x Hx) as [Hpx _], (format_08d_spec y Hy) as [Hpy _].
  rewrite <- Hpx, <- Hpy, E. reflexivity.
Qed.

Lemma string_app_cancel_l (p a b : string) : (p +:+ a)%string = (p +:+ b)%string -> a = b.
Proof.
  induction p as [|x p IH]; [done|].
  rewrite !string_app_cons. intros E. injection E as E. exact (IH E).
Qed.

Lemma step_name_ne_tmp (x y : Z) : 0 <= x ->
  ("step_" +:+ format_08d x)%string <> (("step_" +:+ format_08d y) +:+ ".tmp")%string.
Proof.
  intros Hx E. rewrite string_app_assoc in E. apply string_app_cancel_l in E.
  destruct (format_08d_spec x Hx) as [_ Hd]. rewrite E, all_digits_app in Hd.
  rewrite Bool.andb_true_iff in Hd. destruct Hd as [_ Hd]. discriminate Hd.
Qed.

Lemma step_name_inj (x y : Z) : 0 <= x -> 0 <= y ->
  ("step_" +:+ format_08d x)%string = ("step_" +:+ format_08d y)%string -> x = y.
Proof. intros Hx Hy E. apply string_app_cancel_l in E. exact (format_08d_inj x y Hx Hy E). Qed.
End FormatFacts.
Module FsFacts.
Import State Props.

Lemma bind_Some_inv {A B} (c : M A) (k : A -> M B) s b s' :
  bind c k s = (Some b, s') -> exists a s1, c s = (Some a, s1) /\ k a s1 = (Some b, s').
Proof. unfold bind. destruct (c s) as [[a|] s1]; intros H; [eauto | discriminate]. Qed.

Lemma frame_bind {A B} (P : path -> Prop) (c : M A) (k : A -> M B) :
  fs_frame P c -> (forall a, fs_frame P (k a)) -> fs_frame P (bind c k).
Proof.
  intros Hc Hk s b s' H q Hq. apply bind_Some_inv in H as (a & s1 & H1 & H2).
  rewrite (Hk a s1 b s' H2 q Hq). exact (Hc s a s1 H1 q Hq).
Qed.

Lemma frame_weaken {A} (P Q : path -> Prop) (c : M A) :
  (forall q, P q -> Q q) -> fs_frame Q c -> fs_frame P c.
Proof. intros HPQ Hc s a s' H q Hq. exact (Hc s a s' H q (HPQ q Hq)). Qed.

Lemma frame_pure {A} P (c : M A) : fs_pure c -> fs_frame P c.
Proof. intros Hc s a s' H q _. pose proof (Hc s) as E. rewrite H in E. simpl in E. by rewrite E. Qed.

Lemma pure_ret {A} (a : A) : fs_pure (ret a).
Proof. intros s. reflexivity. Qed.
Lemma pure_raise {A} : fs_pure (@raise A).
Proof. intros s. reflexivity. Qed.
Lemma pure_get_fs : fs_pure get_fs.
Proof. intros s. reflexivity. Qed.
Lemma pure_time_time : fs_pure time_time.
Proof. intros s. reflexivity. Qed.
Lemma pure_get_rank : fs_pure get_rank.
Proof. intros s. reflexivity. Qed.
Lemma pure_barrier : fs_pure barrier.
Proof. intros s. reflexivity. Qed.
Lemma pure_is_main_process : fs_pure is_main_process.
Proof. intros s. reflexivity. Qed.

Lemma pure_bind {A B} (c : M A) (k : A -> M B) :
  fs_pure c -> (forall a, fs_pure (k a)) -> fs_pure (bind c k).
Proof.
  intros Hc Hk s. unfold bind. pose proof (Hc s) as E.
  destruct (c s) as [[a|] s1]; simpl in *; [by rewrite Hk | exact E].
Qed.

Lemma pure_exists p : fs_pure (os_path_exists p).
Proof. apply pure_bind; [apply pure_get_fs | intros; apply pure_ret]. Qed.
Lemma pure_isfile p : fs_pure (os_path_isfile p).
Proof. apply pure_bind; [apply pure_get_fs | intros; apply pure_ret]. Qed.
Lemma pure_listdir p : fs_pure (os_listdir p).
Proof.
  apply pure_bind; [apply pure_get_fs|]. intros f.
  destruct (is_dir f p); [apply pure_ret | apply pure_raise].
Qed.
Lemma pure_torch_load p : fs_pure (torch_load p).
Proof.
  apply pure_bind; [apply pure_get_fs|]. intros f.
  destruct (f !! p) as [[|[]]|]; first [apply pure_ret | apply pure_raise].
Qed.

Lemma strip_prefix_spec (p k r : path) : strip_prefix p k = Some r <-> k = p ++ r.
Proof.
  revert k; induction p as [|x p IH]; intros [|y k]; simpl.
  - split; congruence.
  - split; congruence.
  - split; [discriminate | intros E; discriminate E].
  - destruct (String.eqb x y) eqn:E.
    + apply String.eqb_eq in E as ->. rewrite IH. split; [by intros -> | by intros [=]].
    + apply String.eqb_neq in E. split; [discriminate | by intros [= ?]].
Qed.

Lemma under_false (p q : path) : (forall r, q <> p ++ r) -> under p q = false.
Proof.
  intros H. unfold under. destruct (strip_prefix p q) as [r|] eqn:E; [|reflexivity].
  apply strip_prefix_spec in E. exfalso. exact (H r E).
Qed.

Lemma under_app (p r : path) : under p (p ++ r) = true.
Proof. unfold under. by rewrite (proj2 (strip_prefix_spec p (p ++ r) r) eq_refl). Qed.

Lemma frame_write_file p c : fs_frame (fun q => q <> p) (write_file p c).
Proof.
  intros s a s' H q Hq. unfold write_file, bind, get_fs in H.
  destruct (_ && _ && _); [|discriminate].
  injection H as <- <-. simpl. by rewrite lookup_insert_ne.
Qed.

Lemma write_file_result p c s a s' :
  write_file p c s = (Some a, s') -> fs s' !! p = Some (File c).
Proof.
  intros H. unfold write_file, bind, get_fs in H.
  destruct (_ && _ && _); [|discriminate].
  injection H as <- <-. simpl. by rewrite lookup_insert_eq.
Qed.

Lemma makedirs_go_frame (rest pre : path) (f f' : gmap path node) :
  makedirs_go pre rest f = Some f' ->
  forall q, (forall r, pre ++ rest <> q ++ r) -> f' !! q = f !! q.
Proof.
  revert pre f; induction rest as [|n rest IH]; intros pre f H q Hq; simpl in H.
  - by injection H as <-.
  - assert (Hq' : forall r, (pre ++ [n]) ++ rest <> q ++ r)
      by (intros r; rewrite <- app_assoc; apply Hq).
    destruct (f !! (pre ++ [n])) as [[|c]|] eqn:E; [exact (IH _ _ H q Hq') | discriminate|].
    rewrite (IH _ _ H q Hq'). apply lookup_insert_ne.
    intros <-. apply (Hq rest). by rewrite <- app_assoc.
Qed.

Lemma makedirs_go_dir (rest pre : path) (f f' : gmap path node) :
  makedirs_go pre rest f = Some f' -> rest <> [] -> f' !! (pre ++ rest) = Some Dir.
Proof.
  revert pre f; induction rest as [|n rest IH]; intros pre f H Hne; [done|]. simpl in H.
  destruct rest as [|m rest'].
  - destruct (f !! (pre ++ [n])) as [[|c]|] eqn:E; simpl in H.
    + by injection H as <-.
    + discriminate.
    + injection H as <-. by rewrite lookup_insert_eq.
  - replace (pre ++ n :: m :: rest') with ((pre ++ [n]) ++ m :: rest')
      by (rewrite <- app_assoc; reflexivity).
    destruct (f !! (pre ++ [n])) as [[|c]|]; [exact (IH _ _ H ltac:(done)) | discriminate |].
    exact (IH _ _ H ltac:(done)).
Qed.

Lemma frame_makedirs p : fs_frame (fun q => forall r, p <> q ++ r) (os_makedirs p).
Proof.
  intros s a s' H q Hq. unfold os_makedirs, bind, get_fs in H.
  destruct (makedirs_go [] p (fs s)) as [f'|] eqn:E; [|discriminate].
  injection H as <- <-. simpl. exact (makedirs_go_frame p [] _ _ E q Hq).
Qed.

Lemma makedirs_result p s a s' :
  os_makedirs p s = (Some a, s') -> p <> [] -> fs s' !! p = Some Dir.
Proof.
  intros H Hp. unfold os_makedirs, bind, get_fs in H.
  destruct (makedirs_go [] p (fs s)) as [f'|] eqn:E; [|discriminate].
  injection H as <- <-. simpl. exact (makedirs_go_dir p [] _ _ E Hp).
Qed.

Lemma frame_rmtree p : fs_frame (fun q => forall r, q <> p ++ r) (rmtree p).
Proof.
  intros s a s' H q Hq. unfold rmtree, bind, get_fs in H.
  destruct (is_dir (fs s) p).
  - injection H as <- <-. simpl. rewrite map_lookup_filter.
    destruct (fs s !! q); simpl; [|reflexivity].
    rewrite option_guard_True; [reflexivity|]. exact (under_false p q Hq).
  - by injection H as <- <-.
Qed.

Lemma move_tree_other (src dst : path) (f : gmap path node) (q : path) :
  (forall r, q <> src ++ r) -> (forall r, q <> dst ++ r) -> move_tree src dst f !! q = f !! q.
Proof.
  intros Hs Hd. unfold move_tree. rewrite lookup_union_r.
  - rewrite map_lookup_filter. destruct (f !! q); simpl; [|reflexivity].
    rewrite option_guard_True; [reflexivity|].
    by rewrite (under_false src q Hs), (under_false dst q Hd).
  - apply not_elem_of_list_to_map_1. intros Hin.
    apply list_elem_of_fmap in Hin as [[k v] [Hk Hin]]. simpl in Hk. subst k.
    apply list_elem_of_omap in Hin as [[k' v'] [_ Hg]]. simpl in Hg.
    destruct (strip_prefix src k') as [r|]; [|discriminate].
    injection Hg as Hq _. exact (Hd r (eq_sym Hq)).
Qed.

Lemma move_tree_moved (src dst : path) (f : gmap path node) (r : path) :
  move_tree src dst f !! (dst ++ r) = f !! (src ++ r).
Proof.
  unfold move_tree.
  set (L := omap _ (map_to_list f)).
  assert (HL : forall v, (dst ++ r, v) ∈ L <-> f !! (src ++ r) = Some v).
  { intros v. unfold L. rewrite list_elem_of_omap. split.
    - intros [[k v'] [Hin Hg]]. simpl in Hg.
      destruct (strip_prefix src k) as [r'|] eqn:E; [|discriminate].
      injection Hg as Hk <-. apply app_inv_head in Hk as ->.
      apply strip_prefix_spec in E as ->. by apply elem_of_map_to_list in Hin.
    - intros Hf. exists (src ++ r, v). split; [by apply elem_of_map_to_list|].
      simpl. by rewrite (proj2 (strip_prefix_spec src (src ++ r) r) eq_refl). }
  assert (Hfilt : filter (fun kv : path * node =>
                            (negb (under src kv.1) && negb (under dst kv.1)) = true) f
                    !! (dst ++ r) = None).
  { rewrite map_lookup_filter. destruct (f !! (dst ++ r)); simpl; [|reflexivity].
    rewrite option_guard_False; [reflexivity|]. rewrite under_app. simpl.
    rewrite andb_false_r. discriminate. }
  rewrite lookup_union_l by exact Hfilt.
  destruct (f !! (src ++ r)) as [v|] eqn:Ef.
  - apply elem_of_list_to_map_1'.
    + intros y Hy. apply HL in Hy. congruence.
    + by apply HL.
  - apply not_elem_of_list_to_map_1. intros Hin.
    apply list_elem_of_fmap in Hin as [[k v] [Hk Hin]]. simpl in Hk. subst k.
    apply HL in Hin. congruence.
Qed.

Lemma frame_replace (src dst : path) :
  fs_frame (fun q => (forall r, q <> src ++ r) /\ (forall r, q <> dst ++ r)) (os_replace src dst).
Proof.
  intros s a s' H q [Hs Hd]. unfold os_replace, bind, get_fs, raise, put_fs, ret in H; simpl in H.
  destruct (bool_decide (src = dst)); simpl in H.
  { destruct (bool_decide _); simpl in H; [by injection H as <- <- | discriminate]. }
  destruct (negb _); simpl in H; [discriminate|].
  destruct (fs s !! src) as [[|c]|] eqn:Es, (fs s !! dst) as [[|c']|] eqn:Ed; simpl in H;
    try discriminate; repeat ((destruct (under _ _) || destruct (bool_decide _)); simpl in H);
    try discriminate; injection H as <- <-; simpl.
  - by apply move_tree_other.
  - by apply move_tree_other.
  - rewrite lookup_insert_ne by (intros <-; exact (Hd [] (eq_sym (app_nil_r _)))).
    rewrite lookup_delete_ne by (intros <-; exact (Hs [] (eq_sym (app_nil_r _)))). reflexivity.
  - rewrite lookup_insert_ne by (intros <-; exact (Hd [] (eq_sym (app_nil_r _)))).
    rewrite lookup_delete_ne by (intros <-; exact (Hs [] (eq_sym (app_nil_r _)))). reflexivity.
Qed.

Lemma replace_file_result (src dst : path) c s a s' :
  fs s !! src = Some (File c) -> os_replace src dst s = (Some a, s') ->
  fs s' !! dst = Some (File c).
Proof.
  intros Hsrc H. unfold os_replace, bind, get_fs, raise, put_fs, ret in H; simpl in H.
  destruct (bool_decide (src = dst)) eqn:Eq; simpl in H.
  { apply bool_decide_eq_true in Eq as <-.
    destruct (bool_decide _); simpl in H; [injection H as <- <-; exact Hsrc | discriminate]. }
  destruct (negb _); simpl in H; [discriminate|]. rewrite Hsrc in H.
  destruct (fs s !! dst) as [[|c']|]; simpl in H; try discriminate;
    injection H as <- <-; simpl; by rewrite lookup_insert_eq.
Qed.

Lemma replace_dir_result (src dst : path) s a s' :
  fs s !! src = Some Dir -> os_replace src dst s = (Some a, s') ->
  forall r, fs s' !! (dst ++ r) = fs s !! (src ++ r).
Proof.
  intros Hsrc H r. unfold os_replace, bind, get_fs, raise, put_fs, ret in H; simpl in H.
  destruct (bool_decide (src = dst)) eqn:Eq; simpl in H.
  { apply bool_decide_eq_true in Eq as <-.
    destruct (bool_decide _); simpl in H; [by injection H as <- <- | discriminate]. }
  destruct (negb _); simpl in H; [discriminate|]. rewrite Hsrc in H.
  destruct (fs s !! dst) as [[|c']|]; simpl in H; try discriminate;
    repeat ((destruct (under _ _) || destruct (bool_decide _)); simpl in H); try discriminate;
    injection H as <- <-; simpl; apply move_tree_moved.
Qed.
End FsFacts.
Module SaveFacts.
Import State Props FsFacts FormatFacts.

Lemma apart_sibling (root rest : path) (a b : string) :
  a <> b -> apart_from (root ++ [b]) (root ++ a :: rest).
Proof.
  intros Hab. split; intros r E.
  - rewrite <- app_assoc in E. apply app_inv_head in E. injection E as E _. exact (Hab E).
  - rewrite <- app_assoc in E. apply app_inv_head in E. injection E as E _. exact (Hab (eq_sym E)).
Qed.

Lemma tmp_of_snoc (l : path) (n : string) : tmp_of (l ++ [n]) = l ++ [(n +:+ ".tmp")%string].
Proof. unfold tmp_of. rewrite rev_app_distr. simpl. by rewrite rev_involutive. Qed.

Lemma load_manifest_spec h s : load_manifest h s = (read_manifest h (fs s), s).
Proof.
  unfold load_manifest, read_manifest, os_path_exists, bind, get_fs, ret, raise. simpl.
  destruct (fs s !! manifest_path h) as [[|[]]|] eqn:E; case_bool_decide as Hb; simpl;
    rewrite ?E; try reflexivity; exfalso;
    first [by apply Hb; eexists | by destruct Hb].
Qed.

Lemma outside_snoc p x q : outside p q -> outside (p ++ [x]) q.
Proof. intros H r E. apply (H (x :: r)). rewrite E, <- app_assoc. reflexivity. Qed.

Lemma outside_child_self (p : path) (x : string) : outside (p ++ [x]) p.
Proof.
  intros r E. apply (f_equal length) in E. rewrite !length_app in E. simpl in E. lia.
Qed.

Lemma outside_sibling (root rest : path) (a b : string) :
  a <> b -> outside (root ++ [b]) (root ++ a :: rest).
Proof. intros Hab. exact (proj1 (apart_sibling root rest a b Hab)). Qed.

Lemma frame_atomic_write p c :
  fs_frame (fun q => outside p q /\ outside (tmp_of p) q) (atomic_write p c).
Proof.
  unfold atomic_write. apply frame_bind.
  - eapply frame_weaken; [|apply frame_write_file].
    intros q [_ H] ->. exact (H [] (eq_sym (app_nil_r _))).
  - intros _. eapply frame_weaken; [|apply frame_replace].
    intros q [H1 H2]. split; assumption.
Qed.

Lemma atomic_write_result p c s a s' :
  tmp_of p <> p -> atomic_write p c s = (Some a, s') -> fs s' !! p = Some (File c).
Proof.
  intros Hne H. unfold atomic_write in H. apply bind_Some_inv in H as (u & s1 & H1 & H2).
  eapply replace_file_result; [|exact H2]. exact (write_file_result _ _ _ _ _ H1).
Qed.

Lemma tmp_of_snoc_ne (l : path) (n : string) : tmp_of (l ++ [n]) <> l ++ [n].
Proof.
  rewrite tmp_of_snoc. intros E. apply app_inv_head in E. injection E as E.
  assert (forall x y : string, (x +:+ y)%string = x -> y = EmptyString) as Hs.
  { induction x as [|a x IH]; intros y Hy; [exact Hy|].
    rewrite string_app_cons in Hy. injection Hy as Hy. exact (IH _ Hy). }
  discriminate (Hs _ _ E).
Qed.

Lemma pure_fs {A} (c : M A) s a s' : fs_pure c -> c s = (Some a, s') -> fs s' = fs s.
Proof. intros Hp H. rewrite <- (Hp s), H. reflexivity. Qed.

Lemma bind_ret_l {A B} (a : A) (k : A -> M B) : bind (ret a) k = k a.
Proof. reflexivity. Qed.

Lemma frame_save_write_tmp h x b l :
  fs_frame (apart_from (tmp_of (checkpoint_dir h x))) (save_write_tmp h x b l).
Proof.
  unfold save_write_tmp, torch_save. set (t := tmp_of (checkpoint_dir h x)).
  apply frame_bind; [apply frame_pure, pure_exists|]. intros ex.
  apply frame_bind.
  { destruct ex; [|apply frame_pure, pure_ret].
    eapply frame_weaken; [|apply frame_rmtree]. intros q [H _]. exact H. }
  intros _. apply frame_bind.
  { eapply frame_weaken; [|apply frame_makedirs]. intros q [_ H]. exact H. }
  intros _. apply frame_bind.
  { eapply frame_weaken; [|apply frame_write_file]. intros q [H _] ->. exact (H _ eq_refl). }
  intros _. apply frame_bind; [apply frame_pure, pure_time_time|]. intros tm.
  apply frame_bind; [apply frame_pure, pure_get_rank|]. intros r.
  apply frame_bind; [|intros _; apply frame_pure, pure_ret].
  eapply frame_weaken; [|apply frame_atomic_write]. intros q [H _].
  rewrite tmp_of_snoc. split; apply outside_snoc; exact H.
Qed.

Lemma save_write_tmp_result h x b l s t s' :
  save_write_tmp h x b l s = (Some t, s') ->
  t = tmp_of (checkpoint_dir h x) /\ fs s' !! t = Some Dir /\
  fs s' !! (t ++ [STATE_FILE]) = Some (File (CState b)).
Proof.
  intros H. unfold save_write_tmp, torch_save in H.
  set (t0 := tmp_of (checkpoint_dir h x)) in H.
  apply bind_Some_inv in H as (ex & s1 & _ & H).
  apply bind_Some_inv in H as (u1 & s2 & _ & H).
  apply bind_Some_inv in H as (u2 & s3 & Hmk & H).
  apply bind_Some_inv in H as (u3 & s4 & Hsv & H).
  apply bind_Some_inv in H as (tm & s5 & Htm & H).
  apply bind_Some_inv in H as (rk & s6 & Hrk & H).
  apply bind_Some_inv in H as (u4 & s7 & Haw & H).
  injection H as <- <-.
  assert (t0 <> []) as Hne.
  { unfold t0, checkpoint_dir. rewrite tmp_of_snoc. intros E.
    apply (f_equal length) in E. rewrite length_app in E. simpl in E. lia. }
  pose proof (makedirs_result _ _ _ _ Hmk Hne) as D3.
  pose proof (write_file_result _ _ _ _ _ Hsv) as F4.
  assert (fs s4 !! t0 = Some Dir) as D4.
  { rewrite (frame_write_file _ _ _ _ _ Hsv); [exact D3|].
    intros E. exact (outside_child_self t0 STATE_FILE [] (eq_trans E (eq_sym (app_nil_r _)))). }
  rewrite <- (pure_fs _ _ _ _ pure_time_time Htm) in D4, F4.
  rewrite <- (pure_fs _ _ _ _ pure_get_rank Hrk) in D4, F4.
  pose proof (frame_atomic_write _ _ _ _ _ Haw) as Fr.
  rewrite tmp_of_snoc in Fr.
  split; [reflexivity|]. split.
  - rewrite Fr; [exact D4|]. split; apply outside_child_self.
  - rewrite Fr; [exact F4|].
    split; apply outside_sibling; discriminate.
Qed.

Lemma pure_load_manifest h : fs_pure (load_manifest h).
Proof. intros s. rewrite load_manifest_spec. reflexivity. Qed.

Lemma frame_record_checkpoint h info :
  fs_frame (fun q => outside (manifest_path h) q /\ outside (tmp_of (manifest_path h)) q)
    (record_checkpoint h info).
Proof.
  unfold record_checkpoint. apply frame_bind; [apply frame_pure, pure_load_manifest|].
  intros m. apply frame_atomic_write.
Qed.

Lemma record_checkpoint_result h info s u s' :
  record_checkpoint h info s = (Some u, s') ->
  exists m, read_manifest h (fs s) = Some m /\
            read_manifest h (fs s') = Some (record_manifest m info).
Proof.
  intros H. unfold record_checkpoint in H.
  apply bind_Some_inv in H as (m & s1 & Hl & Hw).
  rewrite load_manifest_spec in Hl. injection Hl as Hm <-.
  exists m. split; [exact Hm|]. unfold read_manifest.
  unfold write_manifest in Hw.
  assert (tmp_of (manifest_path h) <> manifest_path h) as Hne
    by (unfold manifest_path; apply tmp_of_snoc_ne).
  rewrite (atomic_write_result _ _ _ _ _ Hne Hw). reflexivity.
Qed.

Lemma step_name_ne_manifest (y : Z) (z : string) :
  ("step_" +:+ format_08d y)%string <> (MANIFEST +:+ z)%string.
Proof. discriminate. Qed.

Lemma manifest_apart h x : save_apart h x (manifest_path h) -> False.
Proof. intros (_ & _ & H & _). exact (H [] (eq_sym (app_nil_r _))). Qed.

Lemma save_leader h x b l s r s' :
  save h x b l (Some true) s = (Some r, s') ->
  fs s' !! (checkpoint_dir h x ++ [STATE_FILE]) = Some (File (CState b)) /\
  (exists m info, read_manifest h (fs s) = Some m /\ step info = x /\
     ci_path info = checkpoint_dir h x /\ ok info = true /\
     read_manifest h (fs s') = Some (record_manifest m info)) /\
  (forall q, save_apart h x q -> fs s' !! q = fs s !! q).
Proof.
  intros H. unfold save in H. rewrite bind_ret_l in H. cbv beta iota delta [negb] in H.
  apply bind_Some_inv in H as (t & s1 & Hw & H).
  apply bind_Some_inv in H as (u1 & s2 & Hr & H).
  apply bind_Some_inv in H as (tm & s3 & Htm & H).
  apply bind_Some_inv in H as (u2 & s4 & Hrec & H).
  apply bind_Some_inv in H as (u3 & s5 & Hb & H).
  injection H as _ <-.
  pose proof (save_write_tmp_result _ _ _ _ _ _ _ Hw) as (Et & D1 & F1). subst t.
  pose proof (frame_save_write_tmp _ _ _ _ _ _ _ Hw) as Fr1.
  pose proof (frame_replace _ _ _ _ _ Hr) as Fr2.
  pose proof (replace_dir_result _ _ _ _ _ D1 Hr) as R2.
  pose proof (pure_fs _ _ _ _ pure_time_time Htm) as E3.
  pose proof (frame_record_checkpoint _ _ _ _ _ Hrec) as Fr4.
  pose proof (record_checkpoint_result _ _ _ _ _ Hrec) as (m & Hm3 & Hm4).
  pose proof (pure_fs _ _ _ _ pure_barrier Hb) as E5.
  assert (checkpoint_dir h x = root_dir h ++ [("step_" +:+ format_08d x)%string]) as Ec
    by reflexivity.
  assert (tmp_of (checkpoint_dir h x) =
          root_dir h ++ [(("step_" +:+ format_08d x) +:+ ".tmp")%string]) as Et
    by (rewrite Ec; apply tmp_of_snoc).
  assert (manifest_path h = root_dir h ++ [MANIFEST]) as Em by reflexivity.
  assert (tmp_of (manifest_path h) = root_dir h ++ [(MANIFEST +:+ ".tmp")%string]) as Etm
    by (rewrite Em; apply tmp_of_snoc).
  split; [|split].
  - rewrite E5, Fr4, E3, R2; [exact F1|].
    rewrite Etm, Em, Ec, <- app_assoc. simpl.
    split; apply outside_sibling; discriminate.
  - exists m, {| step := x; ci_path := checkpoint_dir h x; loss := l; timestamp := tm;
                 ok := true |}.
    split; [|split; [reflexivity|split; [reflexivity|split; [reflexivity|]]]].
    + rewrite <- Hm3, E3. unfold read_manifest. rewrite Fr2, Fr1; [reflexivity| |].
      * rewrite Et, Em. apply apart_sibling. discriminate.
      * rewrite Et, Ec, Em. split; apply outside_sibling; discriminate.
    + rewrite E5. exact Hm4.
  - intros q (Hq1 & Hq2 & Hq3 & Hq4).
    rewrite E5, Fr4, E3, Fr2, Fr1; [reflexivity|exact Hq1|split|split]; try assumption.
    + exact (proj1 Hq1).
Qed.
End SaveFacts.
Module SeqFacts.
Import State Props FsFacts FormatFacts SaveFacts.

Lemma last20_app_last20 {A} (l k : list A) : last20 (last20 l ++ k) = last20 (l ++ k).
Proof.
  unfold last20. rewrite !length_app, length_drop.
  destruct (decide (length l <= 20)%nat).
  - replace (length l - 20)%nat with 0%nat by lia. rewrite drop_0, Nat.sub_0_r. reflexivity.
  - rewrite !drop_app, drop_drop, length_drop. f_equal; f_equal; lia.
Qed.

Lemma map_last20 {A B} (f : A -> B) (l : list A) : map f (last20 l) = last20 (map f l).
Proof.
  unfold last20. rewrite length_map. generalize (length l - 20)%nat as n.
  induction l as [|a l IH]; intros [|n]; simpl; try reflexivity. apply IH.
Qed.

Lemma length_last20 {A} (l : list A) : length (last20 l) = Nat.min 20 (length l).
Proof. unfold last20. rewrite length_drop. lia. Qed.

Lemma last20_short {A} (l : list A) : (length l <= 20)%nat -> last20 l = l.
Proof. intros H. unfold last20. replace (length l - 20)%nat with 0%nat by lia. apply drop_0. Qed.

Lemma record_manifest_keys m info :
  map entry_key (checkpoints (record_manifest m info)) =
  last20 (map entry_key (checkpoints m) ++ [(step info, ci_path info)]).
Proof. simpl. rewrite map_last20, map_app. reflexivity. Qed.

Lemma save_seq_frame h xs s u s' q :
  save_seq h xs s = (Some u, s') -> Forall (fun c : save_call => save_apart h c.1.1 q) xs ->
  fs s' !! q = fs s !! q.
Proof.
  revert s. induction xs as [|[[x b] l] xs IH]; intros s H Hq; simpl in H.
  - injection H as _ <-. reflexivity.
  - apply bind_Some_inv in H as (r & s1 & H1 & H2). apply Forall_cons_1 in Hq as [Hq1 Hq].
    rewrite (IH _ H2); [|assumption].
    exact (proj2 (proj2 (save_leader _ _ _ _ _ _ _ H1)) q Hq1).
Qed.

Lemma state_file_path h x :
  checkpoint_dir h x ++ [STATE_FILE] =
  root_dir h ++ [("step_" +:+ format_08d x)%string; STATE_FILE].
Proof. unfold checkpoint_dir. rewrite <- app_assoc. reflexivity. Qed.

Lemma other_save_apart h x y :
  0 <= x -> 0 <= y -> x <> y -> save_apart h y (checkpoint_dir h x ++ [STATE_FILE]).
Proof.
  intros Hx Hy Hxy. rewrite state_file_path.
  assert (tmp_of (checkpoint_dir h y) =
          root_dir h ++ [(("step_" +:+ format_08d y) +:+ ".tmp")%string]) as Et
    by (unfold checkpoint_dir; apply tmp_of_snoc).
  assert (tmp_of (manifest_path h) = root_dir h ++ [(MANIFEST +:+ ".tmp")%string]) as Etm
    by (unfold manifest_path; apply tmp_of_snoc).
  unfold save_apart. rewrite Et, Etm. split; [|split; [|split]].
  - apply apart_sibling. apply step_name_ne_tmp. exact Hx.
  - unfold checkpoint_dir. apply outside_sibling.
    intros E. exact (Hxy (step_name_inj x y Hx Hy E)).
  - unfold manifest_path. apply outside_sibling. discriminate.
  - apply outside_sibling. discriminate.
Qed.

Lemma save_seq_spec h xs s u s' m0 :
  Forall (fun c : save_call => 0 <= c.1.1) xs ->
  StronglySorted (fun c d : save_call => c.1.1 < d.1.1) xs ->
  read_manifest h (fs s) = Some m0 -> (length (checkpoints m0) <= 20)%nat ->
  save_seq h xs s = (Some u, s') ->
  (exists m, read_manifest h (fs s') = Some m /\
     map entry_key (checkpoints m) =
     last20 (map entry_key (checkpoints m0) ++ map (fun c : save_call => record_key h c.1.1) xs)) /\
  (forall c, In c xs -> fs s' !! (checkpoint_dir h c.1.1 ++ [STATE_FILE]) = Some (File (CState c.1.2))).
Proof.
  revert s m0. induction xs as [|[[x b] l] xs IH]; intros s m0 Hnn Hsort Hm Hlen H; simpl in H.
  - injection H as _ <-. split; [|intros c []].
    exists m0. split; [exact Hm|]. rewrite app_nil_r.
    symmetry. apply last20_short. rewrite length_map. exact Hlen.
  - apply bind_Some_inv in H as (r & s1 & H1 & H2).
    pose proof (save_leader _ _ _ _ _ _ _ H1) as (F1 & (m & info & Hm' & Hst & Hp & _ & Hm1) & _).
    rewrite Hm in Hm'. injection Hm' as <-.
    apply Forall_cons_1 in Hnn as [Hx Hnn']. apply StronglySorted_inv in Hsort as [Hsort' Hlt].
    assert (length (checkpoints (record_manifest m0 info)) <= 20)%nat as Hlen1
      by (simpl; rewrite length_last20; lia).
    destruct (IH _ _ Hnn' Hsort' Hm1 Hlen1 H2) as [(m' & Hm' & Hk) Hf].
    split.
    + exists m'. split; [exact Hm'|]. rewrite Hk, record_manifest_keys, Hst, Hp.
      rewrite last20_app_last20, <- app_assoc. reflexivity.
    + intros c [<- | Hc]; [|exact (Hf c Hc)]. simpl.
      rewrite (save_seq_frame _ _ _ _ _ _ H2); [exact F1|].
      apply Forall_forall. intros d Hd. apply other_save_apart.
      * exact Hx.
      * rewrite Forall_forall in Hnn'. exact (Hnn' d Hd).
      * rewrite Forall_forall in Hlt. specialize (Hlt d Hd). simpl in Hlt. lia.
Qed.
End SeqFacts.


Module ClaimFacts.
Import Props.

(** *** Classification *)
Lemma classify_sigs_spec (sigs : list string) (t : string) :
  Recovery.classify_sigs sigs t = Recovery.RETRIABLE <->
  exists sig, In sig sigs /\ Str.contains sig t = true.
Proof.
  induction sigs as [|sg sigs IH]; simpl.
  - split; [discriminate | intros (? & [] & _)].
  - destruct (Str.contains sg t) eqn:E.
    + split; [intros _; exists sg; split; [left|]; auto | reflexivity].
    + rewrite IH. split.
      * intros (sig & Hin & Hc). exists sig. split; [right|]; assumption.
      * intros (sig & [<- | Hin] & Hc); [congruence|]. exists sig. split; assumption.
Qed.

Lemma signatures_lower : Forall (fun sig => Str.lower sig = sig) Recovery.RETRIABLE_SIGNATURES.
Proof. repeat constructor. Qed.

(** *** Retry loop *)
Lemma retry_loop_non_retriable (sleep_max : Q) text sig pol (fuel attempt : nat) p :
  Recovery.classify_fault text = Recovery.NON_RETRIABLE ->
  Recovery.retry_loop sleep_max (fun _ => Some text) sig pol (S fuel) attempt p =
    (Recovery.call p, Recovery.Raised (Recovery.Fault text)).
Proof. intros H. simpl. rewrite H. reflexivity. Qed.

(** *** Backoff *)
Lemma backoffFor_mono (pol : Recovery.RetryPolicy) (a b : nat) :
  (0 <= Recovery.base_backoff pol)%Q -> (a <= b)%nat ->
  (SpecBackoff.backoffFor pol a <= SpecBackoff.backoffFor pol b)%Q.
Proof.
  intros Hb Hab. unfold SpecBackoff.backoffFor.
  apply Q.min_le_compat_l. rewrite !(Qmult_comm (Recovery.base_backoff pol)).
  apply Qmult_le_compat_r; [|exact Hb].
  rewrite <- Zle_Qle. apply Z.pow_le_mono_r; lia.
Qed.

Import State FsFacts SaveFacts SeqFacts.

(** *** Validity check and the manifest fast path *)
Lemma bind_step {A B} (c : M A) (k : A -> M B) s a s1 :
  c s = (Some a, s1) -> bind c k s = k a s1.
Proof. intros H. unfold bind. rewrite H. reflexivity. Qed.

Lemma isfile_eq (q : path) s :
  os_path_isfile q s = (Some (match fs s !! q with Some (File _) => true | _ => false end), s).
Proof. reflexivity. Qed.

Lemma exists_eq (q : path) s : os_path_exists q s = (Some (bool_decide (is_Some (fs s !! q))), s).
Proof. reflexivity. Qed.

Lemma listdir_dir (q : path) s : is_dir (fs s) q = true -> os_listdir q s = (Some (children (fs s) q), s).
Proof. unfold os_listdir, bind, get_fs. simpl. intros ->. reflexivity. Qed.

Lemma is_valid_checkpoint_state (p : path) s : snd (is_valid_checkpoint p s) = s.
Proof.
  unfold is_valid_checkpoint, os_path_isfile, os_path_exists, os_listdir, bind, get_fs, ret, raise.
  simpl. repeat case_match; simplify_eq/=; reflexivity.
Qed.

Lemma children_elem (f : gmap path node) (p : path) (n : string) v :
  f !! (p ++ [n] : path) = Some v -> n ∈ children f p.
Proof.
  intros H. unfold children. apply list_elem_of_omap. exists (p ++ [n], v). split.
  - apply elem_of_map_to_list. exact H.
  - simpl. replace (strip_prefix p (p ++ [n])) with (Some [n]); [reflexivity|].
    symmetry. apply strip_prefix_spec. reflexivity.
Qed.

Lemma is_valid_with_meta (p : path) s c :
  fs s !! p = Some Dir -> fs s !! (p ++ [META_FILE] : path) = Some (File c) ->
  is_valid_checkpoint p s = (Some true, s).
Proof.
  intros Hd Hm. unfold is_valid_checkpoint.
  rewrite (bind_step _ _ s _ s (isfile_eq _ _)). cbv beta.
  rewrite (bind_step _ _ s _ s (isfile_eq _ _)). cbv beta.
  rewrite (bind_step _ _ s _ s (exists_eq _ _)). cbv beta.
  rewrite Hm, Hd, bool_decide_eq_true_2 by (eexists; reflexivity). simpl. case_match; [reflexivity|].
  assert (is_dir (fs s) p = true) as Hdir by (unfold is_dir; rewrite Hd; reflexivity).
  rewrite (bind_step _ _ s _ s (listdir_dir _ _ Hdir)).
  destruct (children (fs s) p) as [|n ns] eqn:E; [|reflexivity].
  pose proof (children_elem _ _ _ _ Hm) as Hin. rewrite E in Hin. apply not_elem_of_nil in Hin as [].
Qed.

Lemma latest_fast_path h s m l :
  read_manifest h (fs s) = Some m -> latest m = Some l ->
  fst (is_valid_checkpoint (checkpoint_dir h l) s) = Some true ->
  latest_checkpoint h s = (Some (Some (info_of l (checkpoint_dir h l))), s).
Proof.
  intros Hm Hl Hv. unfold latest_checkpoint.
  rewrite (bind_step _ _ s m s); [|rewrite load_manifest_spec, Hm; reflexivity].
  rewrite Hl.
  rewrite (bind_step _ _ s true s); [reflexivity|].
  pose proof (is_valid_checkpoint_state (checkpoint_dir h l) s) as Hs.
  destruct (is_valid_checkpoint (checkpoint_dir h l) s) as [v s1]. simpl in Hv, Hs.
  subst. reflexivity.
Qed.

(** *** Followers *)
Lemma save_follower h x b l is_main s :
  is_main = Some false \/ (is_main = None /\ main s = false) ->
  save h x b l is_main s =
    (Some EmptyString, {| fs := fs s; clock := clock s; rank := rank s; main := main s;
                          barriers := S (barriers s) |}).
Proof.
  destruct s as [f c r mn br]. simpl.
  intros [-> | [-> ->]]; unfold save, is_main_process, bind, ret, barrier; reflexivity.
Qed.

(** *** Manifest updates *)
Lemma last_in_last20 {A} (l : list A) (x : A) : In x (last20 (l ++ [x])).
Proof.
  unfold last20. rewrite drop_app, length_app. simpl.
  replace (length l + 1 - 20 - length l)%nat with 0%nat by lia.
  apply in_or_app. right. left. reflexivity.
Qed.

Lemma record_manifest_ok m info :
  ok info = true ->
  latest (record_manifest m info) = Some (step info) /\ manifest_inv (record_manifest m info).
Proof.
  intros Hok. unfold record_manifest. rewrite Hok. split; [reflexivity|].
  intros l' E. injection E as <-. exists (entry_of info).
  split; [apply last_in_last20|]. split; [reflexivity | exact Hok].
Qed.

Lemma record_manifest_not_ok m info :
  ok info = false -> latest (record_manifest m info) = latest m.
Proof. intros Hok. unfold record_manifest. rewrite Hok. reflexivity. Qed.

Lemma mark_bad_spec m x :
  latest (mark_bad m x) = latest m /\
  forall e, In e (checkpoints (mark_bad m x)) -> e_step e = x -> e_ok e = false.
Proof.
  split; [reflexivity|]. intros e He Hs. simpl in He. apply in_map_iff in He as (c & <- & _).
  revert Hs. case_bool_decide; simpl; [reflexivity | intros; contradiction].
Qed.

Lemma record_external_result h x p l s u s' :
  record_external h x p l s = (Some u, s') ->
  exists m info, step info = x /\ ok info = true /\
    read_manifest h (fs s') = Some (record_manifest m info).
Proof.
  intros H. unfold record_external in H.
  apply bind_Some_inv in H as (u1 & s1 & _ & H).
  apply bind_Some_inv in H as (t & s2 & _ & H).
  apply bind_Some_inv in H as (r & s3 & _ & H).
  apply bind_Some_inv in H as (u2 & s4 & _ & H).
  apply bind_Some_inv in H as (t' & s5 & _ & H).
  apply record_checkpoint_result in H as (m & _ & Hm).
  exists m, {| step := x; ci_path := p; loss := l; timestamp := t'; ok := true |}.
  split; [reflexivity|split; [reflexivity|exact Hm]].
Qed.
End ClaimFacts.

Module Claims.
Import State Props Scenarios RecoveryFacts SaveFacts SeqFacts ClaimFacts.

(** C1 (corrected): a leader's successful [save] and a successful
    [record_external] set [latest] to the step just recorded, and the
    manifest then satisfies the invariant (a record of that step with
    [ok = true] is kept); recording a record with [ok = false] leaves
    [latest] unchanged.  The failure path of [load_latest_checkpoint]
    ([mark_bad]) keeps [latest] but sets [ok = false] on every record of
    that step, so it can break the invariant. *)
Theorem manifest_latest_after_updates (h : NodeStateHandler) :
  (forall x b l s r s', save h x b l (Some true) s = (Some r, s') ->
     exists m, read_manifest h (fs s') = Some m /\ latest m = Some x /\ manifest_inv m) /\
  (forall x p l s u s', record_external h x p l s = (Some u, s') ->
     exists m, read_manifest h (fs s') = Some m /\ latest m = Some x /\ manifest_inv m) /\
  (forall m info, ok info = false -> latest (record_manifest m info) = latest m) /\
  (forall m x, latest (mark_bad m x) = latest m /\
     forall e, In e (checkpoints (mark_bad m x)) -> e_step e = x -> e_ok e = false).
Proof.
  split; [|split; [|split]].
  - intros x b l s r s' H.
    destruct (save_leader _ _ _ _ _ _ _ H) as (_ & (m & info & _ & Hst & _ & Hok & Hm) & _).
    destruct (record_manifest_ok m info Hok) as [Hl Hinv].
    exists (record_manifest m info). rewrite Hl, Hst. auto.
  - intros x p l s u s' H.
    destruct (record_external_result _ _ _ _ _ _ _ H) as (m & info & Hst & Hok & Hm).
    destruct (record_manifest_ok m info Hok) as [Hl Hinv].
    exists (record_manifest m info). rewrite Hl, Hst. auto.
  - exact record_manifest_not_ok.
  - exact mark_bad_spec.
Qed.

Lemma manifest_latest_after_updates_witness :
  exists m, read_manifest h0 (fs s_saved7) = Some m /\ latest m = Some 7 /\ manifest_inv m.
Proof.
  apply (proj1 (manifest_latest_after_updates h0) 7 "weights" None s_root
               (render (checkpoint_dir h0 7)) s_saved7).
  unfold s_saved7. vm_compute. reflexivity.
Defined.

(** C1: [record_external(1, checkpoint_dir(1))] of a directory with no
    [state.pt], then [load_latest_checkpoint()]: the load fails, and the
    manifest keeps [latest = 1] while its only record of step 1 has
    [ok = false]. *)
Lemma manifest_inv_broken_by_failed_load :
  fst c1_run = Some None /\
  exists m, read_manifest h0 (fs (snd c1_run)) = Some m /\ latest m = Some 1 /\ ~ manifest_inv m.
Proof.
  split; [vm_compute; reflexivity|].
  eexists. split; [vm_compute; reflexivity|]. split; [reflexivity|].
  intros H. destruct (H 1 eq_refl) as (e & Hin & _ & Hok). simpl in Hin.
  destruct Hin as [<- | []]. discriminate Hok.
Qed.

(** C2 (code bug): the step directory pattern is matched with [re.match],
    which anchors only at the start, so a [step_00000007.tmp] directory
    left by a crashed [save] is a candidate of the fallback scan and, as it
    holds [meta.json] and [state.pt], passes the validity check:
    [latest_checkpoint] returns it where it returned [None] before.  The
    next [save] of step 7 does replace the leftover directory. *)
Theorem crashed_tmp_dir_returned :
  latest_checkpoint h0 s_root = (Some None, s_root) /\
  fs s_crash !! checkpoint_dir h0 7 = None /\
  fs s_crash !! tmp_of (checkpoint_dir h0 7) = Some Dir /\
  fst (latest_checkpoint h0 s_crash) = Some (Some (info_of 7 (tmp_of (checkpoint_dir h0 7)))) /\
  fst (save h0 7 "weights" None (Some true) s_crash) = Some (render (checkpoint_dir h0 7)) /\
  fs (snd (save h0 7 "weights" None (Some true) s_crash)) !! tmp_of (checkpoint_dir h0 7) = None.
Proof. repeat apply conj; vm_compute; reflexivity. Qed.

(** C3 (corrected): [run_with_retries] never reads the terminator.  A
    SIGTERM during a backoff sleep only sets the latch; the sleep resumes
    and completes, and the loop goes on: outcome, number of calls and
    sleeps are those of a run without any signal and with the latch clear.
    There is no "terminated" outcome. *)
Theorem retries_ignore_terminator (sleep_max : Q) fn sig pol (p : Recovery.proc) :
  let p' := {| Recovery.latch := false; Recovery.calls := Recovery.calls p;
               Recovery.slept := Recovery.slept p |} in
  snd (Recovery.run_with_retries sleep_max fn sig pol p) =
    snd (Recovery.run_with_retries sleep_max fn (fun _ => false) pol p') /\
  same_but_latch (fst (Recovery.run_with_retries sleep_max fn sig pol p))
                 (fst (Recovery.run_with_retries sleep_max fn (fun _ => false) pol p')).
Proof.
  intros p'. unfold Recovery.run_with_retries. apply retry_loop_signals.
  split; reflexivity.
Qed.

(** C3: with the latch already set and a SIGTERM during every sleep, the
    default policy still sleeps 10, 20 and 40 seconds and re-raises the
    original failure after four calls. *)
Lemma latched_run_sleeps_and_reraises :
  Recovery.run_with_retries sleep_limit always_timeout (fun _ => true)
    Recovery.default_policy p_latched =
  ({| Recovery.latch := true; Recovery.calls := 4; Recovery.slept := [10; 20; 40]%Q |},
   Recovery.Raised (Recovery.Fault "timeout")).
Proof. vm_compute. reflexivity. Qed.

(** Retry count below the overflow: with [max_retries = r], [0 <= r <= 1024],
    [0 < base_backoff <= max_backoff] and [max_backoff] within the
    platform's [time.sleep] limit, a work function that always raises the
    same retriable fault is called [r + 1] times, sleeps [r] times, and the
    original failure propagates; a non-retriable fault on the first call
    gives one call, no sleep, and the original failure, for any policy.
    (From [r = 1025] on, [backoff_for(1024)] raises [OverflowError].) *)
Theorem retries_count (sleep_max : Q) (text : string) fn sig pol (p : Recovery.proc) (r : nat) :
  (Recovery.classify_fault text = Recovery.RETRIABLE ->
   (0 < Recovery.base_backoff pol)%Q ->
   (Recovery.base_backoff pol <= Recovery.max_backoff pol)%Q ->
   (Recovery.max_backoff pol <= sleep_max)%Q ->
   Recovery.max_retries pol = Z.of_nat r -> (r <= 1024)%nat ->
   snd (Recovery.run_with_retries sleep_max (fun _ => Some text) sig pol p) =
     Recovery.Raised (Recovery.Fault text) /\
   Recovery.calls (fst (Recovery.run_with_retries sleep_max (fun _ => Some text) sig pol p)) =
     (Recovery.calls p + r + 1)%nat /\
   length (Recovery.slept (fst (Recovery.run_with_retries sleep_max (fun _ => Some text) sig pol p))) =
     (length (Recovery.slept p) + r)%nat) /\
  (Recovery.classify_fault text = Recovery.NON_RETRIABLE -> fn O = Some text ->
   Recovery.run_with_retries sleep_max fn sig pol p =
     ({| Recovery.latch := Recovery.latch p; Recovery.calls := S (Recovery.calls p);
         Recovery.slept := Recovery.slept p |}, Recovery.Raised (Recovery.Fault text))).
Proof.
  split.
  - intros Hc Hb Hm Hs Hr Hle. unfold Recovery.run_with_retries. rewrite Hr, Nat2Z.id.
    apply (retry_loop_always_retriable sleep_max text sig pol r (S r) 0 p Hc Hb Hm Hs);
      [exact Hr | lia | lia].
  - intros Hc Hf. unfold Recovery.run_with_retries. simpl. rewrite Hf, Hc. reflexivity.
Qed.

Lemma retries_count_witness :
  (snd (Recovery.run_with_retries sleep_limit always_timeout (fun _ => false)
          Recovery.default_policy p0) = Recovery.Raised (Recovery.Fault "timeout") /\
   Recovery.calls (fst (Recovery.run_with_retries sleep_limit always_timeout (fun _ => false)
          Recovery.default_policy p0)) = 4%nat /\
   length (Recovery.slept (fst (Recovery.run_with_retries sleep_limit always_timeout
          (fun _ => false) Recovery.default_policy p0))) = 3%nat) /\
  Recovery.run_with_retries sleep_limit (fun _ => Some "disk full"%string) (fun _ => false)
    Recovery.default_policy p0 =
    ({| Recovery.latch := false; Recovery.calls := 1; Recovery.slept := [] |},
     Recovery.Raised (Recovery.Fault "disk full")).
Proof.
  split.
  - apply (proj1 (retries_count sleep_limit "timeout" always_timeout (fun _ => false)
                    Recovery.default_policy p0 3));
      first [reflexivity | lia | vm_compute; discriminate].
  - apply (proj2 (retries_count sleep_limit "disk full" (fun _ => Some "disk full"%string)
                    (fun _ => false) Recovery.default_policy p0 3));
      vm_compute; reflexivity.
Defined.

(** C4 (code bug): with [max_retries = 1025], the default delays
    ([base_backoff = 10.0], [max_backoff = 300.0]) and a work function
    that always raises the retriable fault "timeout", the 1025th failure
    reaches [backoff_for(1024)], whose [10.0 * 2 ** 1024] does not convert
    to a float: [OverflowError] propagates after 1025 calls, not the
    original failure after 1026, though the backoff is meant to be capped
    at [max_backoff]. *)
Lemma overflow_after_1025_calls :
  snd (Recovery.run_with_retries sleep_limit always_timeout (fun _ => false) policy_1025 p0) =
    Recovery.Raised Recovery.OverflowError /\
  Recovery.calls (fst (Recovery.run_with_retries sleep_limit always_timeout (fun _ => false)
                         policy_1025 p0)) = 1025%nat.
Proof. split; vm_compute; reflexivity. Qed.

(** C5 (code bug): a directory that holds [meta.json] passes
    [_is_valid_checkpoint] whatever else it holds: [os.listdir] counts
    [meta.json] itself, so the test [len(os.listdir(path)) > 0] always
    holds once the metadata file exists. *)
Theorem meta_only_dir_valid (p : path) s c :
  fs s !! p = Some Dir -> fs s !! (p ++ [META_FILE] : path) = Some (File c) ->
  is_valid_checkpoint p s = (Some true, s).
Proof. exact (is_valid_with_meta p s c). Qed.

Lemma meta_only_dir_valid_witness :
  children (fs s_meta_only) ["ckpt"; "step_00000003"]%string = [META_FILE] /\
  is_valid_checkpoint ["ckpt"; "step_00000003"]%string s_meta_only = (Some true, s_meta_only).
Proof.
  split; [vm_compute; reflexivity|].
  apply (meta_only_dir_valid _ _
           (CMeta {| m_step := 3; m_loss := None; m_timestamp := 0%Q; m_rank := 0 |}));
    vm_compute; reflexivity.
Defined.

(** C6: [classify_fault] answers [RETRIABLE] exactly when the lower-cased
    text contains one of [RETRIABLE_SIGNATURES] (lower-cased) as a
    substring, and [NON_RETRIABLE] exactly when it contains none.  It is a
    function of the text alone, so equal texts get equal answers. *)
Theorem classify_fault_spec (text : string) :
  (Recovery.classify_fault text = Recovery.RETRIABLE <->
   exists sig, In sig Recovery.RETRIABLE_SIGNATURES /\
     exists pre suf, Str.lower text = (pre +:+ Str.lower sig +:+ suf)%string) /\
  (Recovery.classify_fault text = Recovery.NON_RETRIABLE <->
   ~ exists sig, In sig Recovery.RETRIABLE_SIGNATURES /\
     exists pre suf, Str.lower text = (pre +:+ Str.lower sig +:+ suf)%string).
Proof.
  assert (Recovery.classify_fault text = Recovery.RETRIABLE <->
          exists sig, In sig Recovery.RETRIABLE_SIGNATURES /\
            exists pre suf, Str.lower text = (pre +:+ Str.lower sig +:+ suf)%string) as HR.
  { unfold Recovery.classify_fault. rewrite classify_sigs_spec.
    pose proof signatures_lower as Hl. rewrite List.Forall_forall in Hl.
    split; intros (sig & Hin & H); exists sig; split; try exact Hin;
      rewrite (Hl sig Hin) in *; apply StrFacts.contains_spec; exact H. }
  split; [exact HR|]. rewrite <- HR.
  destruct (Recovery.classify_fault text); split; intros H; try congruence.
Qed.

(** The backoff formula where the code returns: for [0 < base_backoff <= max_backoff],
    [backoff_for(attempt)] is [min(max_backoff, base_backoff * 2 ** attempt)]
    and at most [max_backoff] for [attempt < 1024], it is non-decreasing
    wherever it returns, and from [attempt = 1024] on it raises
    [OverflowError] ([2 ** attempt] does not convert to a float). *)
Theorem backoff_for_formula (pol : Recovery.RetryPolicy) :
  (0 < Recovery.base_backoff pol)%Q ->
  (Recovery.base_backoff pol <= Recovery.max_backoff pol)%Q ->
  (forall a, (a < 1024)%nat ->
     Recovery.backoff_for pol a = Some (SpecBackoff.backoffFor pol a) /\
     (SpecBackoff.backoffFor pol a <= Recovery.max_backoff pol)%Q) /\
  (forall a b da db, (a <= b)%nat -> Recovery.backoff_for pol a = Some da ->
     Recovery.backoff_for pol b = Some db -> (da <= db)%Q) /\
  (forall a, (1024 <= a)%nat -> Recovery.backoff_for pol a = None).
Proof.
  intros Hb Hm.
  assert (forall a, (a < 1024)%nat ->
            Recovery.backoff_for pol a = Some (SpecBackoff.backoffFor pol a)) as Heq.
  { intros a Ha. unfold Recovery.backoff_for.
    replace (1024 <=? a)%nat with false by (symmetry; apply Nat.leb_gt; lia).
    rewrite py_min_Qmin. reflexivity. }
  assert (forall a, (1024 <= a)%nat -> Recovery.backoff_for pol a = None) as Hnone.
  { intros a Ha. unfold Recovery.backoff_for.
    replace (1024 <=? a)%nat with true by (symmetry; apply Nat.leb_le; lia). reflexivity. }
  split; [|split; [|exact Hnone]].
  - intros a Ha. split; [exact (Heq a Ha)|]. apply Q.le_min_l.
  - intros a b da db Hab Ha Hb'.
    destruct (Nat.lt_ge_cases b 1024) as [Hb1|Hb1]; [|rewrite Hnone in Hb'; [discriminate|exact Hb1]].
    rewrite Heq in Ha by lia. rewrite Heq in Hb' by lia.
    injection Ha as <-. injection Hb' as <-.
    apply backoffFor_mono; [apply Qlt_le_weak; exact Hb | exact Hab].
Qed.

Lemma backoff_for_formula_witness :
  Recovery.backoff_for Recovery.default_policy 3%nat =
    Some (SpecBackoff.backoffFor Recovery.default_policy 3%nat) /\
  (SpecBackoff.backoffFor Recovery.default_policy 3%nat <= 300)%Q.
Proof.
  apply (proj1 (backoff_for_formula Recovery.default_policy
                  ltac:(vm_compute; reflexivity) ltac:(vm_compute; discriminate)) 3%nat).
  lia.
Defined.

(** C7 (code bug): with the default policy ([base_backoff = 10.0],
    [max_backoff = 300.0]), [backoff_for(1024)] raises [OverflowError]
    ([2 ** 1024] does not convert to a float), where the formula
    [min(max_backoff, base_backoff * 2 ** attempt)] and the comment
    "exponential backoff capped at max_backoff" give [300]. *)
Lemma backoff_overflow_at_1024 :
  Recovery.backoff_for Recovery.default_policy 1024%nat = None /\
  SpecBackoff.backoffFor Recovery.default_policy 1024%nat = 300%Q.
Proof. split; vm_compute; reflexivity. Qed.

(** C8: a [save] by a non-leader ([is_main=False], or [is_main] not given
    and [is_main_process()] false) writes nothing: the file system and
    every other component of the state are as before, except that the
    process passed one [barrier()]; it returns the empty string. *)
Theorem follower_save_no_io h x b l is_main s :
  is_main = Some false \/ (is_main = None /\ main s = false) ->
  save h x b l is_main s =
    (Some EmptyString, {| fs := fs s; clock := clock s; rank := rank s; main := main s;
                          barriers := S (barriers s) |}).
Proof. exact (save_follower h x b l is_main s). Qed.

Lemma follower_save_no_io_witness :
  save h0 7 "weights" None (Some false) s_root =
    (Some EmptyString, {| fs := fs s_root; clock := clock s_root; rank := rank s_root;
                          main := main s_root; barriers := 1 |}).
Proof. apply follower_save_no_io. left. reflexivity. Defined.

(** C9: after a leader's saves of strictly increasing steps (from a root
    with no manifest), the manifest holds [min 20 n] records for [n]
    saves: those of the last 20 saves, in order, each with its step and its
    [step_<N>] directory; the [state.pt] of every save, also of the
    records dropped, is still on disk. *)
Theorem manifest_keeps_last_20 (h : NodeStateHandler) (xs : list save_call) s u s' :
  Forall (fun c : save_call => 0 <= c.1.1) xs ->
  StronglySorted (fun c d : save_call => c.1.1 < d.1.1) xs ->
  fs s !! manifest_path h = None ->
  save_seq h xs s = (Some u, s') ->
  exists m, read_manifest h (fs s') = Some m /\
    length (checkpoints m) = Nat.min 20 (length xs) /\
    map entry_key (checkpoints m) = last20 (map (fun c : save_call => record_key h c.1.1) xs) /\
    forall c, In c xs ->
      fs s' !! (checkpoint_dir h c.1.1 ++ [STATE_FILE]) = Some (File (CState c.1.2)).
Proof.
  intros Hnn Hsort Hnone H.
  assert (read_manifest h (fs s) = Some empty_manifest) as Hm
    by (unfold read_manifest; rewrite Hnone; reflexivity).
  destruct (save_seq_spec h xs s u s' empty_manifest Hnn Hsort Hm ltac:(simpl; lia) H)
    as [(m & Hm' & Hk) Hf].
  exists m. split; [exact Hm'|]. simpl in Hk. split; [|split; [exact Hk|exact Hf]].
  rewrite <- (length_map entry_key), Hk, length_last20, length_map. reflexivity.
Qed.

Lemma manifest_keeps_last_20_witness :
  exists m, read_manifest h0 (fs s_saved25) = Some m /\
    length (checkpoints m) = 20%nat /\
    map entry_key (checkpoints m) = last20 (map (fun c : save_call => record_key h0 c.1.1) xs25) /\
    forall c, In c xs25 ->
      fs s_saved25 !! (checkpoint_dir h0 c.1.1 ++ [STATE_FILE]) = Some (File (CState c.1.2)).
Proof.
  apply (manifest_keeps_last_20 h0 xs25 s_root tt s_saved25).
  - unfold xs25. simpl. repeat constructor; simpl; lia.
  - unfold xs25. simpl. repeat constructor.
  - vm_compute. reflexivity.
  - unfold s_saved25. vm_compute. reflexivity.
Defined.

(** C10: when the manifest's [latest] step [l] names a valid directory,
    [latest_checkpoint] returns the record built from [l] alone: path
    [checkpoint_dir(l)], [loss] absent ([None]), [timestamp] at its
    default [0.0], [ok = True]; the manifest's records (their paths,
    losses, timestamps and flags) play no part, so a checkpoint recorded
    by [record_external] at another path is never returned this way. *)
Theorem latest_via_manifest_from_step (h : NodeStateHandler) s m l :
  read_manifest h (fs s) = Some m -> latest m = Some l ->
  fst (is_valid_checkpoint (checkpoint_dir h l) s) = Some true ->
  latest_checkpoint h s =
    (Some (Some {| step := l; ci_path := checkpoint_dir h l; loss := None; timestamp := 0%Q;
                   ok := true |}), s).
Proof. exact (latest_fast_path h s m l). Qed.

Lemma latest_via_manifest_from_step_witness :
  latest_checkpoint h0 s_saved7 =
    (Some (Some {| step := 7; ci_path := checkpoint_dir h0 7; loss := None; timestamp := 0%Q;
                   ok := true |}), s_saved7).
Proof.
  apply (latest_via_manifest_from_step h0 s_saved7
           (match read_manifest h0 (fs s_saved7) with Some m => m | None => empty_manifest end));
    vm_compute; reflexivity.
Defined.
End Claims.

(** ** Properties of the remaining code *)
Module ExtraFacts.
Import State Props.

(** *** Lower-casing *)
Lemma lower_ascii_idem (c : Ascii.ascii) : Str.lower_ascii (Str.lower_ascii c) = Str.lower_ascii c.
Proof. destruct c as [[] [] [] [] [] [] [] []]; reflexivity. Qed.

Lemma lower_idem (s : string) : Str.lower (Str.lower s) = Str.lower s.
Proof. induction s as [|c s IH]; simpl; [reflexivity|]. by rewrite lower_ascii_idem, IH. Qed.

Lemma lower_app (a b : string) : Str.lower (a +:+ b) = (Str.lower a +:+ Str.lower b)%string.
Proof.
  induction a as [|c a IH]; [reflexivity|].
  rewrite !FormatFacts.string_app_cons. simpl. by rewrite IH.
Qed.

(** *** The retry loop up to its last call *)
Lemma retry_loop_run (sleep_max : Q) fn sig pol (j attempt fuel : nat) (p : Recovery.proc) :
  (0 < Recovery.base_backoff pol)%Q ->
  (Recovery.base_backoff pol <= Recovery.max_backoff pol)%Q ->
  (Recovery.max_backoff pol <= sleep_max)%Q ->
  Z.of_nat (attempt + j) <= Recovery.max_retries pol -> (attempt + j <= 1024)%nat ->
  (j < fuel)%nat ->
  (forall i, (attempt <= i < attempt + j)%nat ->
     exists t, fn i = Some t /\ Recovery.classify_fault t = Recovery.RETRIABLE) ->
  (fn (attempt + j)%nat = None \/
   (exists t, fn (attempt + j)%nat = Some t /\ Recovery.classify_fault t = Recovery.NON_RETRIABLE) \/
   Z.of_nat (attempt + j) = Recovery.max_retries pol) ->
  snd (Recovery.retry_loop sleep_max fn sig pol fuel attempt p) =
    match fn (attempt + j)%nat with
    | None => Recovery.Returned
    | Some t => Recovery.Raised (Recovery.Fault t)
    end /\
  Recovery.calls (fst (Recovery.retry_loop sleep_max fn sig pol fuel attempt p)) =
    (Recovery.calls p + j + 1)%nat /\
  Recovery.slept (fst (Recovery.retry_loop sleep_max fn sig pol fuel attempt p)) =
    Recovery.slept p ++
      map (fun a : nat => Qmin (Recovery.max_backoff pol)
                               (Recovery.base_backoff pol * inject_Z (2 ^ Z.of_nat a)))
          (seq attempt j).
Proof.
  intros Hb Hm Hs.
  revert attempt fuel p; induction j as [|j IH]; intros attempt fuel p Hr Ha Hf Hret Hfin;
    (destruct fuel as [|fuel]; [lia|]); simpl.
  - rewrite Nat.add_0_r in Hfin, Hr |- *.
    destruct (fn attempt) as [t|] eqn:Ef; simpl; [|repeat split; simpl; try lia; by rewrite app_nil_r].
    destruct Hfin as [Hn | [(t' & Ht' & Hc) | Hmax]]; [discriminate| |].
    + injection Ht' as <-. rewrite Hc. simpl. repeat split; simpl; try lia. by rewrite app_nil_r.
    + replace (Z.of_nat attempt <? Recovery.max_retries pol) with false
        by (symmetry; apply Z.ltb_ge; lia).
      rewrite andb_false_r. simpl. repeat split; simpl; try lia. by rewrite app_nil_r.
  - destruct (Hret attempt ltac:(lia)) as (t & Ef & Hc). rewrite Ef, Hc. simpl.
    replace (Z.of_nat attempt <? Recovery.max_retries pol) with true
      by (symmetry; apply Z.ltb_lt; lia).
    destruct (RecoveryFacts.backoff_in_range pol attempt Hb Hm ltac:(lia)) as [d [Hd [Hd0 Hdm]]].
    rewrite Hd. unfold Recovery.time_sleep.
    destruct (Qlt_le_dec d 0) as [Hneg|_];
      [exfalso; apply (Qlt_not_le d 0); [exact Hneg | apply Qlt_le_weak; exact Hd0]|].
    destruct (Qlt_le_dec sleep_max d) as [Hbig|_];
      [exfalso; apply (Qlt_not_le sleep_max d); [exact Hbig | apply Qle_trans with (Recovery.max_backoff pol); assumption]|].
    match goal with
    | |- context [Recovery.retry_loop _ _ _ _ fuel (S attempt) ?q] =>
        destruct (IH (S attempt) fuel q ltac:(lia) ltac:(lia) ltac:(lia)
                    ltac:(intros i Hi; apply Hret; lia)
                    ltac:(replace (S attempt + j)%nat with (attempt + S j)%nat by lia; exact Hfin))
          as [H1 [H2 H3]]
    end.
    replace (S attempt + j)%nat with (attempt + S j)%nat in H1 by lia.
    rewrite H1, H2, H3. unfold Recovery.backoff_for in Hd.
    destruct (1024 <=? attempt)%nat; [discriminate|]. injection Hd as <-.
    rewrite RecoveryFacts.py_min_Qmin.
    destruct (sig _); simpl; (split; [reflexivity|split; [lia|]]); by rewrite <- app_assoc.
Qed.

(** *** Step names *)
Lemma substring_all (s : string) : String.substring 0 (String.length s) s = s.
Proof. induction s as [|c s IH]; simpl; [reflexivity|]. by rewrite IH. Qed.

Lemma substring_step (r : string) :
  String.substring 5 (String.length ("step_" +:+ r) - 5) ("step_" +:+ r) = r.
Proof.
  rewrite !FormatFacts.string_app_cons. simpl. rewrite Nat.sub_0_r. apply substring_all.
Qed.

Lemma digit_run_app (a b : string) :
  FormatFacts.all_digits a = true -> digit_run (a +:+ b) = (a +:+ digit_run b)%string.
Proof.
  induction a as [|c a IH]; [reflexivity|]. rewrite FormatFacts.string_app_cons. simpl.
  intros H. apply andb_prop in H as [Hc Ha]. rewrite Hc, IH by exact Ha. reflexivity.
Qed.

Lemma digits_aux_nonempty (fuel : nat) (n : N) (acc : string) :
  acc <> EmptyString -> digits_aux fuel n acc <> EmptyString.
Proof.
  revert n acc; induction fuel as [|f IH]; intros n acc Hacc; simpl; [exact Hacc|].
  destruct (n <? 10)%N; [discriminate | apply IH; discriminate].
Qed.

Lemma app_nonempty (a b : string) : b <> EmptyString -> (a +:+ b)%string <> EmptyString.
Proof. destruct a; [done|]. rewrite FormatFacts.string_app_cons. discriminate. Qed.

Lemma format_08d_nonempty (x : Z) : format_08d x <> EmptyString.
Proof.
  unfold format_08d.
  apply app_nonempty, app_nonempty. unfold digits. simpl.
  destruct (_ <? 10)%N; [discriminate | apply digits_aux_nonempty; discriminate].
Qed.

Lemma match_step_digits (x : Z) (rest : string) :
  0 <= x -> digit_run rest = EmptyString ->
  match_step (("step_" +:+ format_08d x) +:+ rest) = Some x.
Proof.
  intros Hx Hr. unfold match_step. rewrite FormatFacts.string_app_assoc.
  rewrite (proj2 (StrFacts.is_prefix_spec _ _)) by (eexists; reflexivity).
  rewrite substring_step.
  destruct (FormatFacts.format_08d_spec x Hx) as [Hv Hd].
  rewrite digit_run_app, Hr by exact Hd.
  replace (format_08d x +:+ "")%string with (format_08d x).
  2:{ clear. generalize (format_08d x). induction s as [|c s IH]; [reflexivity|].
      rewrite FormatFacts.string_app_cons. by rewrite <- IH. }
  destruct (format_08d x) eqn:E; [exfalso; exact (format_08d_nonempty x E)|].
  exact (f_equal Some Hv).
Qed.

(** *** Atomic writes *)
Lemma write_file_exact p c s a s' :
  write_file p c s = (Some a, s') -> fs s' = <[p := File c]> (fs s).
Proof.
  intros H. unfold write_file, bind, get_fs in H.
  destruct (_ && _ && _); [|discriminate]. by injection H as <- <-.
Qed.

Lemma replace_file_exact (src dst : path) c s a s' :
  src <> dst -> fs s !! src = Some (File c) -> os_replace src dst s = (Some a, s') ->
  fs s' = <[dst := File c]> (delete src (fs s)).
Proof.
  intros Hne Hsrc H. unfold os_replace, bind, get_fs, raise, put_fs, ret in H; simpl in H.
  rewrite bool_decide_eq_false_2 in H by exact Hne.
  destruct (negb _); simpl in H; [discriminate|]. rewrite Hsrc in H.
  destruct (fs s !! dst) as [[|c']|]; simpl in H; try discriminate; by injection H as <- <-.
Qed.

Lemma tmp_of_ne (p : path) : p <> [] -> tmp_of p <> p.
Proof.
  intros Hp. destruct (rev p) as [|n r] eqn:E.
  - apply (f_equal (@rev string)) in E. rewrite rev_involutive in E. simpl in E. done.
  - replace p with (rev r ++ [n]) by (rewrite <- (rev_involutive p), E; reflexivity).
    apply SaveFacts.tmp_of_snoc_ne.
Qed.

(** *** Directory creation *)
Lemma makedirs_go_mono (rest pre : path) (f f' : gmap path node) :
  makedirs_go pre rest f = Some f' -> forall k v, f !! k = Some v -> f' !! k = Some v.
Proof.
  revert pre f; induction rest as [|n rest IH]; intros pre f H k v Hk; simpl in H.
  - by injection H as <-.
  - destruct (f !! (pre ++ [n])) as [[|c]|] eqn:E; [exact (IH _ _ H k v Hk) | discriminate |].
    apply (IH _ _ H). rewrite lookup_insert_ne; [exact Hk|]. intros Heq. subst k. assert (@Some node v = None) as C by (etransitivity; [symmetry; exact Hk | exact E]). discriminate C.
Qed.

Lemma makedirs_go_idem (rest pre : path) (f f' : gmap path node) :
  makedirs_go pre rest f = Some f' -> makedirs_go pre rest f' = Some f'.
Proof.
  revert pre f; induction rest as [|n rest IH]; intros pre f H; simpl in H |- *; [reflexivity|].
  destruct (f !! (pre ++ [n])) as [[|c]|] eqn:E; [| discriminate |].
  - pose proof (makedirs_go_mono _ _ _ _ H _ _ E) as Hq.
    change (f' !! (pre ++ [n] : list string) = Some Dir) in Hq.
    rewrite Hq. exact (IH _ _ H).
  - assert (<[pre ++ [n] := Dir]> f !! (pre ++ [n]) = Some Dir) as Hq0 by apply lookup_insert_eq.
    pose proof (makedirs_go_mono _ _ _ _ H _ _ Hq0) as Hq.
    change (f' !! (pre ++ [n] : list string) = Some Dir) in Hq.
    rewrite Hq. exact (IH _ _ H).
Qed.

(** *** Worker ranks *)
(** *** Worker ranks *)
Lemma str_int_nat (n : nat) : Nodes.str_int (Z.of_nat n) = digits (N.of_nat n).
Proof.
  unfold Nodes.str_int. replace (Z.of_nat n <? 0) with false by (symmetry; apply Z.ltb_ge; lia).
  simpl. rewrite <- nat_N_Z, Zabs2N.id. reflexivity.
Qed.

Lemma str_int_nat_inj (a b : nat) :
  Nodes.str_int (Z.of_nat a) = Nodes.str_int (Z.of_nat b) -> a = b.
Proof.
  rewrite !str_int_nat. intros E.
  destruct (FormatFacts.digits_spec (N.of_nat a)) as [Ha _], (FormatFacts.digits_spec (N.of_nat b)) as [Hb _].
  rewrite E in Ha. rewrite Ha in Hb. lia.
Qed.

Lemma rank_lookup (l : Z) (c : Nodes.LaunchConfig) (env : gmap string string) :
  Nodes.wrap_worker_env l c env !! "RANK"%string =
    Some (Nodes.str_int (Nodes.node_rank c * Nodes.gpus_per_node c + l)).
Proof.
  unfold Nodes.wrap_worker_env.
  destruct (Nodes.backend c) as [b|]; [destruct (String.eqb b EmptyString)|];
    rewrite ?lookup_insert_ne by discriminate; apply lookup_insert_eq.
Qed.

Lemma map_seq_shift {A} (F : nat -> A) (a g : nat) :
  map F (seq a g) = map (fun l => F (a + l)%nat) (seq 0 g).
Proof.
  induction g as [|g IH]; [reflexivity|].
  rewrite !seq_S, !map_app, IH. simpl. reflexivity.
Qed.

Lemma flat_map_blocks {A} (F : nat -> A) (g N : nat) :
  flat_map (fun n => map (fun l => F (n * g + l)%nat) (seq 0 g)) (seq 0 N) = map F (seq 0 (N * g)).
Proof.
  induction N as [|N IH]; [reflexivity|].
  rewrite seq_S, flat_map_app, IH. cbn [flat_map]. rewrite app_nil_r.
  replace (S N * g)%nat with (N * g + g)%nat by lia.
  rewrite seq_app, map_app. f_equal. rewrite (map_seq_shift F (0 + N * g)). apply map_ext. intros l. f_equal.
Qed.
End ExtraFacts.

Module StateFacts.
Import State Props FsFacts FormatFacts SaveFacts ClaimFacts ExtraProps ExtraFacts.

(** *** Trees *)
Lemma leaves_spec (f : gmap path node) (p : path) c n :
  files_are_leaves f = true -> f !! p = Some (File c) -> f !! (p ++ [n] : path) = None.
Proof.
  intros Hl Hp. unfold files_are_leaves in Hl. rewrite forallb_forall in Hl.
  assert (In (p, File c) (map_to_list f)) as Hin
    by (apply list_elem_of_In, elem_of_map_to_list; exact Hp).
  specialize (Hl _ Hin). simpl in Hl. rewrite forallb_forall in Hl.
  destruct (f !! (p ++ [n] : path)) as [v|] eqn:E; [|reflexivity]. exfalso.
  assert (In (p ++ [n], v) (map_to_list f)) as Hin'
    by (apply list_elem_of_In, elem_of_map_to_list; exact E).
  specialize (Hl _ Hin'). simpl in Hl. rewrite under_app in Hl. simpl in Hl.
  apply bool_decide_eq_true in Hl. apply (f_equal length) in Hl. rewrite length_app in Hl. simpl in Hl. lia.
Qed.

(** *** Steps that leave the process state as it is *)
Lemma st_pure_bind {A B} (c : M A) (k : A -> M B) :
  st_pure c -> (forall a, st_pure (k a)) -> st_pure (bind c k).
Proof.
  intros Hc Hk s. unfold bind. pose proof (Hc s) as E.
  destruct (c s) as [[a|] s1]; simpl in E |- *; subst; [apply Hk | reflexivity].
Qed.

Lemma st_pure_ret {A} (a : A) : st_pure (ret a).
Proof. intros s. reflexivity. Qed.

Lemma st_pure_raise {A} : st_pure (@raise A).
Proof. intros s. reflexivity. Qed.

Lemma st_pure_get_fs : st_pure get_fs.
Proof. intros s. reflexivity. Qed.

Lemma st_pure_load_manifest h : st_pure (load_manifest h).
Proof. intros s. rewrite load_manifest_spec. reflexivity. Qed.

Lemma st_pure_is_valid p : st_pure (is_valid_checkpoint p).
Proof. intros s. apply is_valid_checkpoint_state. Qed.

Lemma st_pure_listdir p : st_pure (os_listdir p).
Proof.
  unfold os_listdir. apply st_pure_bind; [apply st_pure_get_fs|]. intros f.
  destruct (is_dir f p); [apply st_pure_ret | apply st_pure_raise].
Qed.

Lemma st_pure_scan h : st_pure (scan_checkpoint_dirs h).
Proof.
  unfold scan_checkpoint_dirs. apply st_pure_bind; [apply st_pure_listdir|]. intros ns. apply st_pure_ret.
Qed.

Lemma st_pure_first_valid cands : st_pure (first_valid cands).
Proof.
  induction cands as [|[x p] cands IH]; simpl; [apply st_pure_ret|].
  apply st_pure_bind; [apply st_pure_is_valid|]. intros []; [apply st_pure_ret | exact IH].
Qed.

Lemma st_pure_validate_go cands : st_pure (validate_go cands).
Proof.
  induction cands as [|[x p] cands IH]; simpl; [apply st_pure_ret|].
  apply st_pure_bind; [apply st_pure_is_valid|]. intros v.
  apply st_pure_bind; [exact IH|]. intros rs. apply st_pure_ret.
Qed.

(** *** Directory listings *)
Lemma children_elem_iff (f : gmap path node) (p : path) (n : string) :
  n ∈ children f p <-> is_Some (f !! (p ++ [n] : path)).
Proof.
  split; [|intros [v Hv]; exact (children_elem f p n v Hv)].
  intros H. unfold children in H. apply list_elem_of_omap in H as ([k v] & Hk & Hm).
  apply elem_of_map_to_list in Hk. simpl in Hm.
  destruct (strip_prefix p k) as [r|] eqn:E; [|discriminate].
  destruct r as [|a [|b r]]; try discriminate. injection Hm as ->.
  apply strip_prefix_spec in E. subst k. exists v. exact Hk.
Qed.

(** *** The validity check on a tree *)
Lemma is_valid_spec (p : path) s :
  files_are_leaves (fs s) = true -> is_valid_checkpoint p s = (Some (has_meta_dir (fs s) p), s).
Proof.
  intros Hl. unfold is_valid_checkpoint.
  rewrite (bind_step _ _ s _ s (isfile_eq _ _)). cbv beta.
  rewrite (bind_step _ _ s _ s (isfile_eq _ _)). cbv beta.
  rewrite (bind_step _ _ s _ s (exists_eq _ _)). cbv beta.
  unfold has_meta_dir, is_dir.
  destruct (fs s !! p) as [[|c]|] eqn:Ep.
  - rewrite bool_decide_eq_true_2 by (eexists; reflexivity).
    destruct (fs s !! (p ++ [META_FILE] : path)) as [[|cm]|] eqn:Em; simpl; try reflexivity.
    destruct (fs s !! (p ++ [STATE_FILE] : path)) as [[|cs]|]; simpl; try reflexivity;
    (assert (is_dir (fs s) p = true) as Hd by (unfold is_dir; rewrite Ep; reflexivity);
     rewrite (bind_step _ _ s _ s (listdir_dir _ _ Hd));
     destruct (children (fs s) p) as [|n ns] eqn:Ec; [|reflexivity];
     pose proof (children_elem _ _ _ _ Em) as Hin; rewrite Ec in Hin;
     apply not_elem_of_nil in Hin as []).
  - rewrite (leaves_spec _ p c META_FILE Hl Ep). rewrite bool_decide_eq_true_2 by (eexists; reflexivity).
    simpl. reflexivity.
  - rewrite bool_decide_eq_false_2 by (intros [? ?]; discriminate). simpl.
    destruct (fs s !! (p ++ [META_FILE] : path)) as [[|]|]; reflexivity.
Qed.

Lemma first_valid_spec (cands : list (Z * path)) s :
  files_are_leaves (fs s) = true ->
  first_valid cands s =
    (Some (option_map (fun c : Z * path => info_of c.1 c.2)
                      (find (fun c : Z * path => has_meta_dir (fs s) c.2) cands)), s).
Proof.
  intros Hl. induction cands as [|[x p] cands IH]; [reflexivity|]. simpl.
  rewrite (bind_step _ _ s _ s (is_valid_spec p s Hl)).
  destruct (has_meta_dir (fs s) p); [reflexivity | exact IH].
Qed.

Lemma validate_go_spec (cands : list (Z * path)) s :
  files_are_leaves (fs s) = true ->
  validate_go cands s =
    (Some (map (fun c : Z * path =>
                  (c.2, has_meta_dir (fs s) c.2,
                   if has_meta_dir (fs s) c.2 then None else Some "missing files"%string)) cands), s).
Proof.
  intros Hl. induction cands as [|[x p] cands IH]; [reflexivity|]. simpl.
  rewrite (bind_step _ _ s _ s (is_valid_spec p s Hl)).
  rewrite (bind_step _ _ s _ s IH). reflexivity.
Qed.

Lemma scan_spec h s :
  is_dir (fs s) (root_dir h) = true ->
  scan_checkpoint_dirs h s = (Some (sort_desc (scan_names h (children (fs s) (root_dir h)))), s).
Proof.
  intros Hd. unfold scan_checkpoint_dirs. rewrite (bind_step _ _ s _ s (listdir_dir _ _ Hd)).
  reflexivity.
Qed.

Lemma scan_not_dir h s :
  is_dir (fs s) (root_dir h) = false -> scan_checkpoint_dirs h s = (None, s).
Proof. intros Hd. unfold scan_checkpoint_dirs, os_listdir, bind, get_fs. simpl. rewrite Hd. reflexivity. Qed.









Lemma find_map {A B} (P : B -> bool) (g : A -> B) l :
  find P (map g l) = option_map g (find (fun a => P (g a)) l).
Proof. induction l as [|a l IH]; simpl; [reflexivity|]. destruct (P (g a)); [reflexivity | exact IH]. Qed.








(** *** The manifest *)
Lemma list_checkpoints_spec h s :
  list_checkpoints h s =
    (option_map (fun m => map info_of_entry (checkpoints m)) (read_manifest h (fs s)), s).
Proof.
  unfold list_checkpoints, bind. rewrite load_manifest_spec.
  destruct (read_manifest h (fs s)); reflexivity.
Qed.

Lemma info_of_entry_of info : info_of_entry (entry_of info) = info.
Proof. destruct info; reflexivity. Qed.

Lemma mark_bad_idem m x : mark_bad (mark_bad m x) x = mark_bad m x.
Proof.
  unfold mark_bad. simpl. f_equal. rewrite map_map. apply map_ext. intros e.
  destruct (bool_decide (e_step e = x)) eqn:E; simpl; rewrite E; reflexivity.
Qed.

(** *** The leader's [save] *)
Lemma save_write_tmp_meta h x b l s t s' :
  save_write_tmp h x b l s = (Some t, s') ->
  exists mt, fs s' !! (t ++ [META_FILE] : path) = Some (File (CMeta mt)).
Proof.
  intros H. unfold save_write_tmp, torch_save in H.
  apply bind_Some_inv in H as (ex & s1 & _ & H).
  apply bind_Some_inv in H as (u1 & s2 & _ & H).
  apply bind_Some_inv in H as (u2 & s3 & _ & H).
  apply bind_Some_inv in H as (u3 & s4 & _ & H).
  apply bind_Some_inv in H as (tm & s5 & _ & H).
  apply bind_Some_inv in H as (rk & s6 & _ & H).
  apply bind_Some_inv in H as (u4 & s7 & Haw & H).
  injection H as <- <-. eexists.
  exact (atomic_write_result _ _ _ _ _ (tmp_of_snoc_ne _ _) Haw).
Qed.

Lemma save_leader_full h x b l s r s' :
  save h x b l (Some true) s = (Some r, s') ->
  r = render (checkpoint_dir h x) /\
  fs s' !! checkpoint_dir h x = Some Dir /\
  (exists mt, fs s' !! (checkpoint_dir h x ++ [META_FILE] : path) = Some (File (CMeta mt))) /\
  exists m t, read_manifest h (fs s) = Some m /\
    read_manifest h (fs s') =
      Some (record_manifest m {| step := x; ci_path := checkpoint_dir h x; loss := l;
                                 timestamp := t; ok := true |}).
Proof.
  intros H. unfold save in H. rewrite bind_ret_l in H. cbv beta iota delta [negb] in H.
  apply bind_Some_inv in H as (t & s1 & Hw & H).
  apply bind_Some_inv in H as (u1 & s2 & Hr & H).
  apply bind_Some_inv in H as (tm & s3 & Htm & H).
  apply bind_Some_inv in H as (u2 & s4 & Hrec & H).
  apply bind_Some_inv in H as (u3 & s5 & Hb & H).
  injection H as <- <-.
  pose proof (save_write_tmp_meta _ _ _ _ _ _ _ Hw) as (mt & M1).
  pose proof (save_write_tmp_result _ _ _ _ _ _ _ Hw) as (Et & D1 & _). subst t.
  pose proof (frame_save_write_tmp _ _ _ _ _ _ _ Hw) as Fr1.
  pose proof (frame_replace _ _ _ _ _ Hr) as Fr2.
  pose proof (replace_dir_result _ _ _ _ _ D1 Hr) as R2.
  pose proof (pure_fs _ _ _ _ pure_time_time Htm) as E3.
  pose proof (frame_record_checkpoint _ _ _ _ _ Hrec) as Fr4.
  pose proof (record_checkpoint_result _ _ _ _ _ Hrec) as (m & Hm3 & Hm4).
  pose proof (pure_fs _ _ _ _ pure_barrier Hb) as E5.
  assert (checkpoint_dir h x = root_dir h ++ [("step_" +:+ format_08d x)%string]) as Ec
    by reflexivity.
  assert (tmp_of (checkpoint_dir h x) =
          root_dir h ++ [(("step_" +:+ format_08d x) +:+ ".tmp")%string]) as Et
    by (rewrite Ec; apply tmp_of_snoc).
  assert (manifest_path h = root_dir h ++ [MANIFEST]) as Em by reflexivity.
  assert (tmp_of (manifest_path h) = root_dir h ++ [(MANIFEST +:+ ".tmp")%string]) as Etm
    by (rewrite Em; apply tmp_of_snoc).
  split; [reflexivity|]. split; [|split].
  - rewrite E5, Fr4, E3.
    + pose proof (R2 []) as R. rewrite !app_nil_r in R. etransitivity; [exact R | exact D1].
    + rewrite Etm, Em, Ec. split; apply outside_sibling; discriminate.
  - exists mt. rewrite E5, Fr4, E3.
    + rewrite R2. exact M1.
    + rewrite Etm, Em, Ec, <- app_assoc. simpl. split; apply outside_sibling; discriminate.
  - exists m, tm. split.
    + rewrite <- Hm3, E3. unfold read_manifest. rewrite Fr2, Fr1; [reflexivity| |].
      * rewrite Et, Em. apply apart_sibling. discriminate.
      * rewrite Et, Ec, Em. split; apply outside_sibling; discriminate.
    + rewrite E5. exact Hm4.
Qed.

(** *** [os.replace] onto a directory that is not empty *)
Lemma replace_onto_nonempty (src dst : path) s :
  src <> dst -> fs s !! dst = Some Dir -> (exists n v, fs s !! (dst ++ [n] : path) = Some v) ->
  fst (os_replace src dst s) = None.
Proof.
  intros Hne Hd (n & v & Hn). unfold os_replace, bind, get_fs, raise, put_fs, ret. simpl.
  rewrite bool_decide_eq_false_2 by exact Hne.
  destruct (negb (is_dir (fs s) (parent dst))); [reflexivity|].
  rewrite Hd. destruct (fs s !! src) as [[|c]|]; try reflexivity.
  destruct (under src dst); [reflexivity|].
  rewrite bool_decide_eq_false_2; [reflexivity|].
  intros E. pose proof (children_elem _ _ _ _ Hn) as Hin. rewrite E in Hin.
  apply not_elem_of_nil in Hin as [].
Qed.

Lemma bind_fst_None {A B} (c : M A) (k : A -> M B) s :
  fst (c s) = None -> fst (bind c k s) = None.
Proof. unfold bind. destruct (c s) as [[a|] s1]; simpl; [discriminate | reflexivity]. Qed.

Lemma name_ne_tmp (n : string) : n <> (n +:+ ".tmp")%string.
Proof.
  induction n as [|a n IH]; [discriminate|]. rewrite string_app_cons. intros E. injection E as E.
  exact (IH E).
Qed.

(** *** [_atomic_write] of a file in an existing directory *)
Lemma parent_snoc (l : path) (n : string) : parent (l ++ [n]) = l.
Proof. unfold parent. apply removelast_last. Qed.

Lemma atomic_write_snoc_ok (l : path) (n : string) c s :
  fs s !! l = Some Dir -> fs s !! (l ++ [n] : path) <> Some Dir ->
  fs s !! (l ++ [(n +:+ ".tmp")%string] : path) <> Some Dir ->
  atomic_write (l ++ [n]) c s =
    (Some tt, with_fs s (<[(l ++ [n] : path) := File c]>
                          (delete (l ++ [(n +:+ ".tmp")%string] : path) (fs s)))).
Proof.
  intros Hl Hn Ht. unfold atomic_write. rewrite tmp_of_snoc.
  set (t := (n +:+ ".tmp")%string) in *.
  assert (write_file (l ++ [t]) c s = (Some tt, with_fs s (<[(l ++ [t] : path) := File c]> (fs s))))
    as Hw.
  { unfold write_file, bind, get_fs, put_fs, ret, raise. simpl.
    rewrite parent_snoc. unfold is_dir. rewrite Hl.
    destruct (fs s !! (l ++ [t] : path)) as [[|]|]; [contradiction | |];
      rewrite bool_decide_eq_false_2 by (intros E; exact (app_cons_not_nil _ _ _ (eq_sym E))); reflexivity. }
  rewrite (bind_step _ _ s _ _ Hw).
  assert (l ++ [t] <> l ++ [n]) as Hne.
  { intros E. apply app_inv_head in E. injection E as E. exact (name_ne_tmp n (eq_sym E)). }
  assert (forall k : string, (l : path) <> l ++ [k]) as Hlk.
  { intros k E. apply (f_equal length) in E. rewrite length_app in E. simpl in E. lia. }
  unfold os_replace, bind, get_fs, raise, put_fs, ret. simpl.
  rewrite bool_decide_eq_false_2 by exact Hne. rewrite parent_snoc. unfold is_dir.
  rewrite lookup_insert_ne by (intros E; exact (Hlk t (eq_sym E))). rewrite Hl. simpl.
  rewrite lookup_insert_eq, lookup_insert_ne by exact Hne.
  destruct (fs s !! (l ++ [n] : path)) as [[|c']|]; [contradiction | |];
    rewrite delete_insert_eq; reflexivity.
Qed.

Lemma st_pure_torch_load p : st_pure (torch_load p).
Proof.
  unfold torch_load. apply st_pure_bind; [apply st_pure_get_fs|]. intros f.
  destruct (f !! p) as [[|[]]|]; first [apply st_pure_ret | apply st_pure_raise].
Qed.

Lemma torch_load_ok (p : path) s b : fs s !! p = Some (File (CState b)) -> torch_load p s = (Some b, s).
Proof. intros H. unfold torch_load, bind, get_fs. simpl. rewrite H. reflexivity. Qed.

Lemma torch_load_fail (p : path) s :
  (forall b, fs s !! p <> Some (File (CState b))) -> torch_load p s = (None, s).
Proof.
  intros H. unfold torch_load, bind, get_fs. simpl.
  destruct (fs s !! p) as [[|[]]|] eqn:E; try reflexivity. exfalso. exact (H _ eq_refl).
Qed.

Lemma bind_raise_step {A B} (c : M A) (k : A -> M B) s s1 :
  c s = (None, s1) -> bind c k s = (None, s1).
Proof. intros H. unfold bind. rewrite H. reflexivity. Qed.

(** *** [latest_checkpoint] past the manifest *)
Lemma latest_fallback_spec h s m :
  files_are_leaves (fs s) = true -> is_dir (fs s) (root_dir h) = true ->
  read_manifest h (fs s) = Some m ->
  match latest m with None => True | Some l => has_meta_dir (fs s) (checkpoint_dir h l) = false end ->
  latest_checkpoint h s =
    (Some (option_map (fun c : Z * path => info_of c.1 c.2)
             (find (fun c : Z * path => has_meta_dir (fs s) c.2)
                   (sort_desc (scan_names h (children (fs s) (root_dir h)))))), s).
Proof.
  intros Hl Hd Hm Hlat. unfold latest_checkpoint.
  rewrite (bind_step _ _ s m s) by (rewrite load_manifest_spec, Hm; reflexivity). cbv beta zeta.
  destruct (latest m) as [l|].
  - rewrite (bind_step _ _ s _ s (is_valid_spec _ _ Hl)), Hlat.
    rewrite (bind_step _ _ s _ s (scan_spec h s Hd)). apply first_valid_spec. exact Hl.
  - rewrite (bind_step _ _ s _ s (scan_spec h s Hd)). apply first_valid_spec. exact Hl.
Qed.

(** *** A failing load of the manifest's latest checkpoint *)
Ltac paths_ne :=
  intros E; first
    [ apply app_inv_head in E; injection E as E; discriminate E
    | apply (f_equal length) in E; rewrite ?length_app in E; simpl in E; lia ].

Lemma bad_latest_latest h s m l :
  bad_latest h s m l -> latest_checkpoint h s = (Some (Some (info_of l (checkpoint_dir h l))), s).
Proof.
  intros (Hm & Hl & Hd & (c & Hc) & _ & _ & _).
  apply (latest_fast_path h s m l Hm Hl). rewrite (is_valid_with_meta _ _ _ Hd Hc). reflexivity.
Qed.

Lemma bad_latest_step h s m l :
  bad_latest h s m l ->
  exists s1, load_latest_checkpoint h s = (Some None, s1) /\ bad_latest h s1 (mark_bad m l) l.
Proof.
  intros Hb. pose proof (bad_latest_latest _ _ _ _ Hb) as Hlt.
  destruct Hb as (Hm & Hl & Hd & (c & Hc) & Hs & Hr & Ht).
  set (N := ("step_" +:+ format_08d l)%string).
  assert (checkpoint_dir h l = root_dir h ++ [N]) as Ec by reflexivity.
  assert (manifest_path h = root_dir h ++ [MANIFEST]) as Em by reflexivity.
  assert (tmp_of (manifest_path h) = root_dir h ++ [(MANIFEST +:+ ".tmp")%string]) as Etm
    by (rewrite Em; apply tmp_of_snoc).
  assert (fs s !! (root_dir h ++ [MANIFEST] : path) <> Some Dir) as Hmd.
  { unfold read_manifest in Hm. rewrite Em in Hm. intros E. rewrite E in Hm. discriminate. }
  assert (fs s !! (root_dir h ++ [(MANIFEST +:+ ".tmp")%string] : path) <> Some Dir) as Htd
    by (rewrite <- Etm; exact Ht).
  pose proof (atomic_write_snoc_ok (root_dir h) MANIFEST (CManifest (mark_bad m l)) s Hr Hmd Htd)
    as Haw.
  set (f1 := <[(root_dir h ++ [MANIFEST] : path) := File (CManifest (mark_bad m l))]>
               (delete (root_dir h ++ [(MANIFEST +:+ ".tmp")%string] : path) (fs s))) in Haw.
  exists (with_fs s f1). split.
  - unfold load_latest_checkpoint. rewrite (bind_step _ _ s _ s Hlt). cbv beta iota.
    unfold try_except. unfold load.
    rewrite (bind_raise_step _ _ s s (torch_load_fail _ s Hs)).
    rewrite (bind_step _ _ s m s) by (rewrite load_manifest_spec, Hm; reflexivity).
    unfold write_manifest. rewrite Em. rewrite (bind_step _ _ s _ _ Haw). reflexivity.
  - assert (forall q : path, q <> root_dir h ++ [MANIFEST] ->
              q <> root_dir h ++ [(MANIFEST +:+ ".tmp")%string] -> f1 !! q = fs s !! q) as Fr.
    { intros q H1 H2. unfold f1. rewrite lookup_insert_ne by (intros E; exact (H1 (eq_sym E))).
      apply lookup_delete_ne. intros E; exact (H2 (eq_sym E)). }
    unfold bad_latest. simpl. split; [|split; [exact Hl|split; [|split; [|split; [|split]]]]].
    + unfold read_manifest. rewrite Em. unfold f1. rewrite lookup_insert_eq. reflexivity.
    + rewrite Fr; [exact Hd | rewrite Ec; paths_ne | rewrite Ec; paths_ne].
    + exists c. rewrite Fr; [exact Hc | rewrite Ec; paths_ne | rewrite Ec; paths_ne].
    + intros b. rewrite Fr; [exact (Hs b) | rewrite Ec; paths_ne | rewrite Ec; paths_ne].
    + rewrite Fr; [exact Hr | paths_ne | paths_ne].
    + rewrite Etm. unfold f1. rewrite lookup_insert_ne by paths_ne.
      rewrite lookup_delete_eq. discriminate.
Qed.

Lemma bad_latest_times h s m l (k : nat) :
  bad_latest h s m l ->
  exists s', load_latest_times h (S k) s = (Some (repeat None (S k)), s') /\
    bad_latest h s' (mark_bad m l) l.
Proof.
  revert s m. induction k as [|k IH]; intros s m Hb;
    destruct (bad_latest_step _ _ _ _ Hb) as (s1 & E1 & Hb1).
  - exists s1. split; [|exact Hb1].
    cbn [load_latest_times]. rewrite (bind_step _ _ s _ s1 E1). reflexivity.
  - destruct (IH s1 (mark_bad m l) Hb1) as (s2 & E2 & Hb2).
    rewrite mark_bad_idem in Hb2. exists s2. split; [|exact Hb2].
    change (load_latest_times h (S (S k)))
      with (r <- load_latest_checkpoint h ;; rs <- load_latest_times h (S k) ;; ret (r :: rs)).
    rewrite (bind_step _ _ s _ s1 E1). cbv beta.
    rewrite (bind_step _ _ s1 _ s2 E2). reflexivity.
Qed.
End StateFacts.

Module Extras.
Import State Props Scenarios SaveFacts SeqFacts ClaimFacts ExtraProps ExtraFacts StateFacts.

(** X1: [classify_fault] reads the text case-insensitively: lower-casing the
    text first changes nothing; and a retriable text stays retriable inside
    any longer message ([pre + text + suf]), e.g. when an exception wraps
    another one's message. *)
Theorem classify_fault_case_and_context (t pre suf : string) :
  Recovery.classify_fault (Str.lower t) = Recovery.classify_fault t /\
  (Recovery.classify_fault t = Recovery.RETRIABLE ->
   Recovery.classify_fault (pre +:+ t +:+ suf) = Recovery.RETRIABLE).
Proof.
  split; [unfold Recovery.classify_fault; by rewrite lower_idem|].
  unfold Recovery.classify_fault. rewrite !ClaimFacts.classify_sigs_spec.
  intros (sig & Hin & Hc). exists sig. split; [exact Hin|].
  apply StrFacts.contains_spec in Hc as (p & q & E). apply StrFacts.contains_spec.
  exists (Str.lower pre +:+ p)%string, (q +:+ Str.lower suf)%string.
  rewrite !lower_app, E, !FormatFacts.string_app_assoc. reflexivity.
Qed.

(** X2: When the work function fails with retriable faults on its first [k]
    calls and its call number [k] is the last (it returns, fails with a
    non-retriable fault, or [k = max_retries]), with [k <= max_retries],
    [k <= 1024] and [0 < base_backoff <= max_backoff] within the platform's
    sleep limit: [run_with_retries] makes exactly [k + 1] calls, sleeps
    [min(max_backoff, base_backoff * 2 ** a)] for [a = 0, ..., k - 1] in
    that order, and then returns or re-raises the last failure. *)
Theorem retries_then_last_call (sleep_max : Q) fn sig pol (p : Recovery.proc) (k : nat) :
  (0 < Recovery.base_backoff pol)%Q ->
  (Recovery.base_backoff pol <= Recovery.max_backoff pol)%Q ->
  (Recovery.max_backoff pol <= sleep_max)%Q ->
  Z.of_nat k <= Recovery.max_retries pol -> (k <= 1024)%nat ->
  (forall i, (i < k)%nat -> exists t, fn i = Some t /\ Recovery.classify_fault t = Recovery.RETRIABLE) ->
  (fn k = None \/ (exists t, fn k = Some t /\ Recovery.classify_fault t = Recovery.NON_RETRIABLE) \/
   Z.of_nat k = Recovery.max_retries pol) ->
  snd (Recovery.run_with_retries sleep_max fn sig pol p) =
    match fn k with None => Recovery.Returned | Some t => Recovery.Raised (Recovery.Fault t) end /\
  Recovery.calls (fst (Recovery.run_with_retries sleep_max fn sig pol p)) = (Recovery.calls p + k + 1)%nat /\
  Recovery.slept (fst (Recovery.run_with_retries sleep_max fn sig pol p)) =
    Recovery.slept p ++
      map (fun a : nat => Qmin (Recovery.max_backoff pol)
                               (Recovery.base_backoff pol * inject_Z (2 ^ Z.of_nat a)))
          (seq 0 k).
Proof.
  intros Hb Hm Hs Hk Hk2 Hret Hfin. unfold Recovery.run_with_retries.
  apply (retry_loop_run sleep_max fn sig pol k 0); simpl; try assumption; try lia.
  intros i Hi. apply Hret. lia.
Qed.

Lemma retries_then_last_call_witness :
  let fn := fun i => if (i <? 2)%nat then Some "NCCL timeout"%string else None in
  snd (Recovery.run_with_retries sleep_limit fn (fun _ => false) Recovery.default_policy p0) =
    match fn 2%nat with None => Recovery.Returned | Some t => Recovery.Raised (Recovery.Fault t) end /\
  Recovery.calls (fst (Recovery.run_with_retries sleep_limit fn (fun _ => false) Recovery.default_policy p0)) =
    (Recovery.calls p0 + 2 + 1)%nat /\
  Recovery.slept (fst (Recovery.run_with_retries sleep_limit fn (fun _ => false) Recovery.default_policy p0)) =
    Recovery.slept p0 ++
      map (fun a : nat => Qmin (Recovery.max_backoff Recovery.default_policy)
                               (Recovery.base_backoff Recovery.default_policy * inject_Z (2 ^ Z.of_nat a)))
          (seq 0 2).
Proof.
  intros fn. apply (retries_then_last_call sleep_limit fn _ Recovery.default_policy p0 2).
  - vm_compute. reflexivity.
  - vm_compute. discriminate.
  - vm_compute. discriminate.
  - vm_compute. discriminate.
  - lia.
  - intros i Hi. exists "NCCL timeout"%string. split; [|vm_compute; reflexivity]. unfold fn.
    replace (i <? 2)%nat with true by (symmetry; apply Nat.ltb_lt; exact Hi). reflexivity.
  - left. reflexivity.
Defined.

(** X3: The last component [step_<08d>] of [checkpoint_dir(step)] is read back
    by the directory scan as [step] for every [step >= 0], and so is the
    name of its [.tmp] sibling; for a negative step ([step_-0000007]) the
    scan's pattern does not match, so such a checkpoint is never found by
    the scan. *)
Theorem step_name_scanned (x : Z) :
  (0 <= x ->
   match_step ("step_" +:+ format_08d x)%string = Some x /\
   match_step (("step_" +:+ format_08d x) +:+ ".tmp")%string = Some x) /\
  (x < 0 -> match_step ("step_" +:+ format_08d x)%string = None).
Proof.
  split.
  - intros Hx. split; [|apply match_step_digits; [exact Hx | reflexivity]].
    replace ("step_" +:+ format_08d x)%string with (("step_" +:+ format_08d x) +:+ "")%string.
    + apply match_step_digits; [exact Hx | reflexivity].
    + generalize ("step_" +:+ format_08d x)%string. induction s as [|c s IH]; [reflexivity|].
      rewrite FormatFacts.string_app_cons. by rewrite IH.
  - intros Hx. unfold match_step.
    rewrite (proj2 (StrFacts.is_prefix_spec _ _)) by (eexists; reflexivity).
    rewrite substring_step. unfold format_08d.
    replace (x <? 0) with true by (symmetry; apply Z.ltb_lt; exact Hx).
    rewrite FormatFacts.string_app_cons. reflexivity.
Qed.

Lemma step_name_scanned_witness :
  match_step ("step_" +:+ format_08d 12)%string = Some 12 /\
  match_step (("step_" +:+ format_08d 12) +:+ ".tmp")%string = Some 12.
Proof. apply (proj1 (step_name_scanned 12)). lia. Defined.

(** X4: [_atomic_write(path, data)] on a non-empty path, when it completes:
    [path] holds [data], [path.tmp] no longer exists, and no other path of
    the file system has changed. *)
Theorem atomic_write_net_effect (p : path) (c : content) s u s' :
  p <> [] -> atomic_write p c s = (Some u, s') ->
  fs s' = <[p := File c]> (delete (tmp_of p) (fs s)).
Proof.
  intros Hp H. unfold atomic_write in H. apply FsFacts.bind_Some_inv in H as (u1 & s1 & H1 & H2).
  pose proof (write_file_exact _ _ _ _ _ H1) as E1.
  assert (fs s1 !! tmp_of p = Some (File c)) as Ht by (rewrite E1; apply lookup_insert_eq).
  rewrite (replace_file_exact _ _ _ _ _ _ (tmp_of_ne p Hp) Ht H2), E1.
  by rewrite delete_insert_eq.
Qed.

Lemma atomic_write_net_effect_witness :
  fs (snd (atomic_write (manifest_path h0) (CManifest empty_manifest) s_root)) =
    <[manifest_path h0 := File (CManifest empty_manifest)]>
      (delete (tmp_of (manifest_path h0)) (fs s_root)).
Proof.
  apply (atomic_write_net_effect _ _ s_root tt); [discriminate | vm_compute; reflexivity].
Defined.

(** X5: [NodeStateHandler(root_dir)], when it completes, leaves [root_dir] a
    directory, and constructing a second handler on the same root changes
    nothing. *)
Theorem init_idempotent (root : path) s h s' :
  init root s = (Some h, s') ->
  root_dir h = root /\ (root <> [] -> fs s' !! root = Some Dir) /\ init root s' = (Some h, s').
Proof.
  intros H. unfold init in H. apply FsFacts.bind_Some_inv in H as (u & s1 & H1 & H2).
  injection H2 as <- <-. split; [reflexivity|]. split; [exact (FsFacts.makedirs_result _ _ _ _ H1)|].
  unfold os_makedirs, bind, get_fs in H1 |- *.
  destruct (makedirs_go [] root (fs s)) as [f'|] eqn:E; [|discriminate].
  injection H1 as _ <-. unfold init, os_makedirs, bind, get_fs, put_fs. cbn [fs with_fs]. rewrite (makedirs_go_idem _ _ _ _ E). reflexivity.
Qed.

Lemma init_idempotent_witness :
  root_dir {| root_dir := ["runs"; "ckpt"]%string |} = ["runs"; "ckpt"]%string /\
  (["runs"; "ckpt"]%string <> [] ->
   fs (snd (init ["runs"; "ckpt"]%string s_root)) !! ["runs"; "ckpt"]%string = Some Dir) /\
  init ["runs"; "ckpt"]%string (snd (init ["runs"; "ckpt"]%string s_root)) =
    (Some {| root_dir := ["runs"; "ckpt"]%string |}, snd (init ["runs"; "ckpt"]%string s_root)).
Proof. apply (init_idempotent _ s_root). vm_compute. reflexivity. Defined.

(** X6: Over all nodes [0 .. num_nodes - 1] of a cluster with
    [gpus_per_node >= 1] and [world_size > 1], the workers [launch] starts
    see the [RANK] values [str(0), ..., str(world_size - 1)], each exactly
    once. *)
Theorem launch_ranks_cover (c : Nodes.LaunchConfig) (env : gmap string string) :
  1 <= Nodes.gpus_per_node c -> 1 < Nodes.world_size c ->
  flat_map (fun n : nat => map (fun e => e !! "RANK"%string)
                              (Nodes.launch_envs (Nodes.on_node c (Z.of_nat n)) env))
           (seq 0 (Z.to_nat (Nodes.num_nodes c))) =
    map (fun r : nat => Some (Nodes.str_int (Z.of_nat r))) (seq 0 (Z.to_nat (Nodes.world_size c))) /\
  NoDup (map (fun r : nat => Nodes.str_int (Z.of_nat r)) (seq 0 (Z.to_nat (Nodes.world_size c)))).
Proof.
  intros Hg Hw. unfold Nodes.world_size in *.
  assert (1 <= Nodes.num_nodes c) as Hn by nia.
  split.
  - rewrite Z2Nat.inj_mul by lia.
    rewrite <- (flat_map_blocks (fun r : nat => Some (Nodes.str_int (Z.of_nat r)))).
    apply flat_map_ext. intros n.
    unfold Nodes.launch_envs, Nodes.launch_local_ranks, Nodes.world_size. simpl.
    replace (1 <? Nodes.num_nodes c * Nodes.gpus_per_node c) with true by (symmetry; apply Z.ltb_lt; exact Hw).
    rewrite !map_map. apply map_ext. intros l. rewrite rank_lookup. simpl.
    f_equal. f_equal. rewrite Nat2Z.inj_add, Nat2Z.inj_mul, Z2Nat.id by lia. reflexivity.
  - assert (Inj eq eq (fun r : nat => Nodes.str_int (Z.of_nat r))) as Hinj
      by (intros a b E; exact (str_int_nat_inj a b E)).
    apply (NoDup_fmap_2 (fun r : nat => Nodes.str_int (Z.of_nat r))), NoDup_seq.
Qed.

Lemma launch_ranks_cover_witness :
  flat_map (fun n : nat => map (fun e => e !! "RANK"%string)
                              (Nodes.launch_envs (Nodes.on_node cfg_2x4 (Z.of_nat n)) ∅))
           (seq 0 2) =
    map (fun r : nat => Some (Nodes.str_int (Z.of_nat r))) (seq 0 8) /\
  NoDup (map (fun r : nat => Nodes.str_int (Z.of_nat r)) (seq 0 8)).
Proof. apply (launch_ranks_cover cfg_2x4 ∅); unfold Nodes.world_size; simpl; lia. Defined.

(** X7: [_wrap_worker] passes every environment variable other than [RANK],
    [WORLD_SIZE], [LOCAL_RANK], [LOCAL_WORLD_SIZE], [MASTER_ADDR] and
    [MASTER_PORT] to the entrypoint unchanged, [TORCH_BACKEND] included when
    the configured backend is [None] or empty: an inherited [TORCH_BACKEND]
    then stays in force. *)
Theorem wrap_worker_env_passthrough (l : Z) (c : Nodes.LaunchConfig) (env : gmap string string)
    (k : string) :
  k ∉ ["RANK"; "WORLD_SIZE"; "LOCAL_RANK"; "LOCAL_WORLD_SIZE"; "MASTER_ADDR"; "MASTER_PORT"]%string ->
  (k <> "TORCH_BACKEND"%string \/ Nodes.backend c = None \/ Nodes.backend c = Some EmptyString) ->
  Nodes.wrap_worker_env l c env !! k = env !! k.
Proof.
  intros Hk Hb. rewrite !not_elem_of_cons in Hk.
  destruct Hk as (H1 & H2 & H3 & H4 & H5 & H6 & _).
  unfold Nodes.wrap_worker_env.
  assert (Nodes.backend c = None \/ Nodes.backend c = Some EmptyString \/
          (k <> "TORCH_BACKEND"%string /\ exists b, Nodes.backend c = Some b)) as Hb'.
  { destruct (Nodes.backend c) as [b|]; [|by left].
    destruct Hb as [Hb | [Hb | Hb]]; [| discriminate | by right; left].
    right; right. split; [exact Hb | by eexists]. }
  destruct Hb' as [-> | [-> | [Hne [b ->]]]]; simpl.
  - rewrite !lookup_insert_ne by congruence. reflexivity.
  - rewrite !lookup_insert_ne by congruence. reflexivity.
  - destruct (String.eqb b EmptyString); rewrite !lookup_insert_ne by congruence; reflexivity.
Qed.

Lemma wrap_worker_env_passthrough_witness :
  Nodes.wrap_worker_env 0 Nodes.default_config {[ "TORCH_BACKEND" := "gloo" ]}%string
    !! "TORCH_BACKEND"%string = Some "gloo"%string.
Proof.
  rewrite (wrap_worker_env_passthrough 0 Nodes.default_config _ "TORCH_BACKEND").
  - apply lookup_singleton_eq.
  - vm_compute. intros H. repeat (apply elem_of_cons in H as [H|H]; [discriminate|]).
    apply not_elem_of_nil in H. exact H.
  - right. left. reflexivity.
Defined.

(** X8: A leader's [save(step, state, loss, is_main=True)] that completes returns
    [checkpoint_dir(step)], and a [load_latest_checkpoint()] right after it
    returns [CheckpointInfo(step, checkpoint_dir(step))] with exactly the
    state that was saved. *)
Theorem save_then_load_latest h x b l s r s' :
  save h x b l (Some true) s = (Some r, s') ->
  r = render (checkpoint_dir h x) /\
  load_latest_checkpoint h s' = (Some (Some (info_of x (checkpoint_dir h x), b)), s').
Proof.
  intros H. pose proof (save_leader_full _ _ _ _ _ _ _ H) as (Er & Dd & (mt & Mm) & m & t & _ & Hm').
  pose proof (save_leader _ _ _ _ _ _ _ H) as (Fst & _ & _).
  split; [exact Er|]. unfold load_latest_checkpoint.
  assert (latest (record_manifest m {| step := x; ci_path := checkpoint_dir h x; loss := l;
                                      timestamp := t; ok := true |}) = Some x) as Hlat
    by (apply record_manifest_ok; reflexivity).
  assert (fst (is_valid_checkpoint (checkpoint_dir h x) s') = Some true) as Hv
    by (rewrite (is_valid_with_meta _ _ _ Dd Mm); reflexivity).
  rewrite (bind_step _ _ s' _ s' (latest_fast_path h s' _ x Hm' Hlat Hv)).
  unfold try_except, load. rewrite (bind_step _ _ s' _ s' (torch_load_ok _ _ _ Fst)). reflexivity.
Qed.

Lemma save_then_load_latest_witness :
  render (checkpoint_dir h0 7) = render (checkpoint_dir h0 7) /\
  load_latest_checkpoint h0 s_saved7 = (Some (Some (info_of 7 (checkpoint_dir h0 7), "weights"%string)), s_saved7).
Proof.
  apply (save_then_load_latest h0 7 "weights" None s_root (render (checkpoint_dir h0 7)) s_saved7).
  vm_compute. reflexivity.
Defined.

(** X9: [save(step, ...)] by the leader raises when [checkpoint_dir(step)] is
    already a directory with entries (a second save of the same step):
    [os.replace] of the temporary directory onto it fails. *)
Theorem save_onto_existing_step_raises h x b l s :
  fs s !! checkpoint_dir h x = Some Dir ->
  (exists n v, fs s !! (checkpoint_dir h x ++ [n] : path) = Some v) ->
  fst (save h x b l (Some true) s) = None.
Proof.
  intros Hd Hn. unfold save. rewrite bind_ret_l. cbv beta iota delta [negb].
  set (N := ("step_" +:+ format_08d x)%string).
  assert (checkpoint_dir h x = root_dir h ++ [N]) as Ec by reflexivity.
  assert (tmp_of (checkpoint_dir h x) = root_dir h ++ [(N +:+ ".tmp")%string]) as Et
    by (rewrite Ec; apply tmp_of_snoc).
  destruct (save_write_tmp h x b l s) as [[t|] s1] eqn:Hw.
  - rewrite (bind_step _ _ _ _ _ Hw). apply bind_fst_None.
    pose proof (save_write_tmp_result _ _ _ _ _ _ _ Hw) as (-> & _).
    pose proof (frame_save_write_tmp _ _ _ _ _ _ _ Hw) as Fr1.
    apply replace_onto_nonempty.
    + rewrite Ec. apply tmp_of_snoc_ne.
    + rewrite Fr1; [exact Hd|]. rewrite Et, Ec. apply apart_sibling. apply StateFacts.name_ne_tmp.
    + destruct Hn as (n & v & Hn). exists n, v. rewrite Fr1; [exact Hn|].
      rewrite Et, Ec, <- app_assoc. simpl. apply apart_sibling. apply StateFacts.name_ne_tmp.
  - apply bind_fst_None. rewrite Hw. reflexivity.
Qed.

Lemma save_onto_existing_step_raises_witness :
  fst (save h0 7 "weights2" None (Some true) s_saved7) = None.
Proof.
  apply save_onto_existing_step_raises.
  - vm_compute. reflexivity.
  - exists STATE_FILE, (File (CState "weights")). vm_compute. reflexivity.
Defined.

(** X10: After a leader's [save(step, state, loss)] completes, [list_checkpoints()]
    returns the list it returned before, with
    [CheckpointInfo(step, checkpoint_dir(step), loss, t, ok=True)] appended
    (for the save's clock reading [t]), cut to its last 20 elements. *)
Theorem list_checkpoints_after_save h x b l s r s' :
  save h x b l (Some true) s = (Some r, s') ->
  exists old t, list_checkpoints h s = (Some old, s) /\
    list_checkpoints h s' =
      (Some (last20 (old ++ [{| step := x; ci_path := checkpoint_dir h x; loss := l;
                                timestamp := t; ok := true |}])), s').
Proof.
  intros H. pose proof (save_leader_full _ _ _ _ _ _ _ H) as (_ & _ & _ & m & t & Hm & Hm').
  exists (map info_of_entry (checkpoints m)), t.
  rewrite !list_checkpoints_spec, Hm, Hm'. simpl. split; [reflexivity|].
  rewrite map_last20, map_app. simpl. rewrite info_of_entry_of. reflexivity.
Qed.

Lemma list_checkpoints_after_save_witness :
  exists old t, list_checkpoints h0 s_root = (Some old, s_root) /\
    list_checkpoints h0 s_saved7 =
      (Some (last20 (old ++ [{| step := 7; ci_path := checkpoint_dir h0 7; loss := None;
                                timestamp := t; ok := true |}])), s_saved7).
Proof.
  apply (list_checkpoints_after_save h0 7 "weights" None s_root (render (checkpoint_dir h0 7)) s_saved7).
  vm_compute. reflexivity.
Defined.

(** X11: A leader's [save(step, ...)] that completes changes only paths in
    these groups: [checkpoint_dir(step)] and what lies under it, its
    [.tmp] sibling and what lies under it, the directories above the
    [.tmp] sibling (the root and its parents, which [os.makedirs] creates
    when missing), and [manifest.json], [manifest.json.tmp] and what lies
    under them.  Every other path keeps its entry. *)
Theorem save_leaves_other_paths h x b l s r s' (q : path) :
  save h x b l (Some true) s = (Some r, s') -> save_apart h x q -> fs s' !! q = fs s !! q.
Proof. intros H Hq. exact (proj2 (proj2 (save_leader _ _ _ _ _ _ _ H)) q Hq). Qed.

Lemma save_leaves_other_paths_witness :
  fs s_saved7 !! (["ckpt"; "step_00000003"]%string : path) = fs s_root !! (["ckpt"; "step_00000003"]%string : path).
Proof.
  apply (save_leaves_other_paths h0 7 "weights" None s_root (render (checkpoint_dir h0 7)) s_saved7).
  - vm_compute. reflexivity.
  - unfold save_apart, apart_from, outside. vm_compute.
    repeat split; intros r E; apply (f_equal (fun p : list string => nth 1 p EmptyString)) in E;
      destruct r; discriminate E.
Defined.

(** X12: [latest_checkpoint()], [list_checkpoints()], [validate_all()] and [load()]
    change nothing, whether they return or raise: neither the file system nor
    the clock nor anything else of the process state. *)
Theorem readers_keep_state h (p : path) s :
  snd (latest_checkpoint h s) = s /\ snd (list_checkpoints h s) = s /\
  snd (validate_all h s) = s /\ snd (load p s) = s.
Proof.
  split; [|split; [|split]]; revert s.
  - unfold latest_checkpoint. apply st_pure_bind; [apply st_pure_load_manifest|]. intros m. cbv zeta.
    assert (st_pure (cands <- scan_checkpoint_dirs h ;; first_valid cands)) as Hf
      by (apply st_pure_bind; [apply st_pure_scan | apply st_pure_first_valid]).
    destruct (latest m) as [l|]; [|exact Hf].
    apply st_pure_bind; [apply st_pure_is_valid|]. intros []; [apply st_pure_ret | exact Hf].
  - unfold list_checkpoints. apply st_pure_bind; [apply st_pure_load_manifest|]. intros m. apply st_pure_ret.
  - unfold validate_all. apply st_pure_bind; [apply st_pure_scan | apply st_pure_validate_go].
  - apply st_pure_torch_load.
Qed.

(** X13: On a file system where no file has entries below it,
    [_is_valid_checkpoint(path)] never raises and is true exactly when
    [path] is a directory holding a file [meta.json], whether or not it
    holds [state.pt]. *)
Theorem is_valid_checkpoint_on_tree (p : path) s :
  files_are_leaves (fs s) = true ->
  is_valid_checkpoint p s = (Some (has_meta_dir (fs s) p), s).
Proof. apply is_valid_spec. Qed.

Lemma is_valid_checkpoint_on_tree_witness :
  is_valid_checkpoint ["ckpt"; "step_00000009"]%string s_scan =
    (Some (has_meta_dir (fs s_scan) ["ckpt"; "step_00000009"]%string), s_scan).
Proof. apply is_valid_checkpoint_on_tree. vm_compute. reflexivity. Defined.





(** X16: When [latest_checkpoint()] falls back to the scan, the path it returns is
    the path of the first entry of [validate_all()] marked valid, and it
    returns [None] exactly when no entry is (the root being a directory and
    no file having entries below it). *)
Theorem fallback_agrees_with_validate_all h s m rs s' :
  files_are_leaves (fs s) = true -> is_dir (fs s) (root_dir h) = true ->
  read_manifest h (fs s) = Some m ->
  match latest m with None => True | Some l => has_meta_dir (fs s) (checkpoint_dir h l) = false end ->
  validate_all h s = (Some rs, s') ->
  exists o, latest_checkpoint h s = (Some o, s) /\
    option_map ci_path o = option_map (fun r : path * bool * option string => r.1.1)
                                      (find (fun r : path * bool * option string => r.1.2) rs).
Proof.
  intros Hl Hd Hm Hlat Hv. rewrite (latest_fallback_spec h s m Hl Hd Hm Hlat).
  unfold validate_all in Hv. rewrite (bind_step _ _ s _ s (scan_spec h s Hd)) in Hv.
  rewrite (validate_go_spec _ s Hl) in Hv. injection Hv as <- _.
  eexists. split; [reflexivity|]. rewrite find_map. simpl.
  destruct (find _ _) as [[x p]|]; reflexivity.
Qed.

Lemma fallback_agrees_with_validate_all_witness :
  exists o, latest_checkpoint h0 s_scan = (Some o, s_scan) /\
    option_map ci_path o =
      option_map (fun r : path * bool * option string => r.1.1)
        (find (fun r : path * bool * option string => r.1.2)
              (match fst (validate_all h0 s_scan) with Some rs => rs | None => [] end)).
Proof.
  apply (fallback_agrees_with_validate_all h0 s_scan empty_manifest _ s_scan);
    [vm_compute; reflexivity | vm_compute; reflexivity | vm_compute; reflexivity | exact I |
     vm_compute; reflexivity].
Defined.

(** X17: On a root directory with no entries, [latest_checkpoint()] returns
    [None], and [list_checkpoints()] and [validate_all()] return empty
    lists. *)
Theorem empty_root_has_nothing h s :
  fs s !! root_dir h = Some Dir -> (forall n, fs s !! (root_dir h ++ [n] : path) = None) ->
  latest_checkpoint h s = (Some None, s) /\ list_checkpoints h s = (Some [], s) /\
  validate_all h s = (Some [], s).
Proof.
  intros Hd Hn.
  assert (is_dir (fs s) (root_dir h) = true) as Hdir by (unfold is_dir; rewrite Hd; reflexivity).
  assert (children (fs s) (root_dir h) = []) as Ech.
  { destruct (children (fs s) (root_dir h)) as [|n ns] eqn:E; [reflexivity|].
    assert (n ∈ children (fs s) (root_dir h)) as Hin by (rewrite E; left).
    apply children_elem_iff in Hin. rewrite Hn in Hin. destruct Hin as [? [=]]. }
  assert (read_manifest h (fs s) = Some empty_manifest) as Hm
    by (unfold read_manifest, manifest_path; rewrite Hn; reflexivity).
  split; [|split].
  - unfold latest_checkpoint.
    rewrite (bind_step _ _ s _ s) by (rewrite load_manifest_spec, Hm; reflexivity). simpl.
    rewrite (bind_step _ _ s _ s (scan_spec h s Hdir)), Ech. reflexivity.
  - rewrite list_checkpoints_spec, Hm. reflexivity.
  - unfold validate_all. rewrite (bind_step _ _ s _ s (scan_spec h s Hdir)), Ech. reflexivity.
Qed.

Lemma empty_root_has_nothing_witness :
  latest_checkpoint h0 s_root = (Some None, s_root) /\ list_checkpoints h0 s_root = (Some [], s_root) /\
  validate_all h0 s_root = (Some [], s_root).
Proof.
  apply empty_root_has_nothing; [vm_compute; reflexivity|].
  intros n. unfold s_root. cbn [fs]. apply lookup_singleton_ne. discriminate.
Defined.

(** X18: When the root directory is missing (and so is [manifest.json]),
    [latest_checkpoint()] and [validate_all()] raise ([os.listdir] of the
    root fails) instead of returning [None] or an empty list, while
    [list_checkpoints()] returns an empty list. *)
Theorem missing_root_raises h s :
  is_dir (fs s) (root_dir h) = false -> fs s !! manifest_path h = None ->
  latest_checkpoint h s = (None, s) /\ validate_all h s = (None, s) /\ list_checkpoints h s = (Some [], s).
Proof.
  intros Hd Hm.
  assert (read_manifest h (fs s) = Some empty_manifest) as Hr by (unfold read_manifest; rewrite Hm; reflexivity).
  split; [|split].
  - unfold latest_checkpoint.
    rewrite (bind_step _ _ s _ s) by (rewrite load_manifest_spec, Hr; reflexivity). simpl.
    rewrite (bind_raise_step _ _ s s (scan_not_dir h s Hd)). reflexivity.
  - unfold validate_all. rewrite (bind_raise_step _ _ s s (scan_not_dir h s Hd)). reflexivity.
  - rewrite list_checkpoints_spec, Hr. reflexivity.
Qed.

Lemma missing_root_raises_witness :
  latest_checkpoint {| root_dir := ["gone"]%string |} s_root = (None, s_root) /\
  validate_all {| root_dir := ["gone"]%string |} s_root = (None, s_root) /\
  list_checkpoints {| root_dir := ["gone"]%string |} s_root = (Some [], s_root).
Proof. apply missing_root_raises; vm_compute; reflexivity. Defined.

(** X19: When the manifest reads as [m], its latest step [l] names a
    directory with [meta.json] but no loadable [state.pt], the root is a
    directory and [manifest.json.tmp] is not a directory (if it were, the
    manifest rewrite would raise): each of any number [k + 1] of
    consecutive [load_latest_checkpoint()] calls returns [None]; afterwards
    the manifest is [m] with step [l]'s records marked [ok = False], and
    [latest] still names [l], so [latest_checkpoint()] returns it again.
    The loader never moves on to an older checkpoint. *)
Theorem load_failure_is_sticky h s m l c (k : nat) :
  read_manifest h (fs s) = Some m -> latest m = Some l ->
  fs s !! checkpoint_dir h l = Some Dir ->
  fs s !! (checkpoint_dir h l ++ [META_FILE] : path) = Some (File c) ->
  (forall b, fs s !! (checkpoint_dir h l ++ [STATE_FILE] : path) <> Some (File (CState b))) ->
  fs s !! root_dir h = Some Dir ->
  fs s !! tmp_of (manifest_path h) <> Some Dir ->
  exists s', load_latest_times h (S k) s = (Some (repeat None (S k)), s') /\
    read_manifest h (fs s') = Some (mark_bad m l) /\
    latest_checkpoint h s' = (Some (Some (info_of l (checkpoint_dir h l))), s').
Proof.
  intros Hm Hl Hd Hc Hs Hr Ht.
  assert (bad_latest h s m l) as Hb by (repeat split; try assumption; exists c; exact Hc).
  destruct (bad_latest_times _ _ _ _ k Hb) as (s' & E & Hb').
  exists s'. split; [exact E|]. split; [exact (proj1 Hb')|].
  exact (bad_latest_latest _ _ _ _ Hb').
Qed.

Lemma load_failure_is_sticky_witness :
  let m := match read_manifest h0 (fs s_bad_latest) with Some m => m | None => empty_manifest end in
  exists s', load_latest_times h0 3 s_bad_latest = (Some [None; None; None], s') /\
    read_manifest h0 (fs s') = Some (mark_bad m 7) /\
    latest_checkpoint h0 s' = (Some (Some (info_of 7 (checkpoint_dir h0 7))), s').
Proof.
  intros m.
  apply (load_failure_is_sticky h0 s_bad_latest m 7
           (match fs s_bad_latest !! (checkpoint_dir h0 7 ++ [META_FILE] : path) with
            | Some (File c) => c | _ => CRaw "none" end) 2).
  - vm_compute. reflexivity.
  - vm_compute. reflexivity.
  - vm_compute. reflexivity.
  - vm_compute. reflexivity.
  - intros b. vm_compute. discriminate.
  - vm_compute. reflexivity.
  - vm_compute. discriminate.
Defined.
End Extras.
